(** * Diagnostic reports of [pyomo/util/infeasible.py]

    A shallow embedding of the four report functions of the module
    ([log_infeasible_constraints], [log_infeasible_bounds],
    [log_close_to_bounds], [log_active_constraints]) together with the
    properties of their bound classification rules.

    The functions read a model owned by the host framework and write to a
    logger.  Both are kept in an explicit world state; a small state and
    exception monad threads it through the loops of the source. *)

From Stdlib Require Import ZArith List String Ascii Bool Lia DecimalString.
From Stdlib Require Import Sorted Permutation.
From Stdlib Require PrimFloat FloatOps SpecFloat FloatAxioms OrderedTypeEx.
Import ListNotations.
Open Scope string_scope.

Set Implicit Arguments.

(** ** Numbers of the host framework

    The numbers the reports compare are produced by the host's [value()]
    and by Python itself (ints or floats).  The source only ever subtracts
    two of them (inside [value(a - b)]), takes [math.fabs], compares with
    [>=] and [<=], doubles the tolerance ([2 * tol]) and formats a number
    with [str.format].  These operations are the interface.  They are
    total: the interface stands for numbers on which none of them can fail,
    as the floats of the docstrings are ([math.fabs] overflows only on an
    integer beyond the range of the floats). *)

Class Numeric (num : Type) : Type := {
  sub : num -> num -> num;      (* value(a - b) *)
  fabs : num -> num;            (* math.fabs(a) *)
  geq : num -> num -> bool;     (* a >= b *)
  leq : num -> num -> bool;     (* a <= b *)
  double : num -> num;          (* 2 * a *)
  str : num -> string           (* '{}'.format(a) *)
}.

(** The two facts of arithmetic that some properties of equality
    constraints rest on: a distance does not depend on the order of its
    operands, and a number that reaches a threshold has an absolute value
    that reaches it. *)

Class NumericLaws (num : Type) (N : Numeric num) : Prop := {
  fabs_sub_swap : forall a b : num, fabs (sub a b) = fabs (sub b a);
  geq_fabs : forall a t : num, geq a t = true -> geq (fabs a) t = true
}.

(** The line break used in multi-line messages. *)
Definition nl : string := String (ascii_of_nat 10) EmptyString.

(** ** Data model (entities of the host framework, read by the reports) *)

Section Model.

Context {num : Type}.

(** A variable: name, current value (absent when unset), optional bounds
    and the fixed flag. *)
Record VarData : Type := {
  var_name : string;
  var_value : option num;
  var_lb : option num;
  var_ub : option num;
  var_fixed : bool
}.

(** The exceptions a report can let through. *)
Inductive exn : Type :=
  | TypeError
  | ZeroDivisionError
  | OverflowError.

(** Modelled from the spec: the expression tree of the host is missing from
    the sources.  An expression is represented by what the reports ask of
    it: its value when every input is set (the result of
    [value(e, exception=False)]), the variables it refers to (the result of
    [identify_variables]) and its printed form.  Where there is no value,
    [expr_error] tells an evaluation that fails (a division by zero, say,
    which [exception=False] does not silence) from one that only meets an
    unset variable. *)
Record Expression : Type := {
  expr_value : option num;
  expr_error : option exn;
  expr_vars : list VarData;
  expr_text : string
}.

(** A constraint: name, body, optional bounds, the equality flag and the
    active flag.  [lower] and [upper] are the values of the bounds;
    [lower_text] and [upper_text] are the bound objects as [str.format]
    prints them, which for a bound that is not a plain number (a mutable
    parameter, say) is not the text of its value. *)
Record ConstraintData : Type := {
  constr_name : string;
  body : Expression;
  lower : option num;
  upper : option num;
  lower_text : string;
  upper_text : string;
  equality : bool;
  active : bool
}.

(** Modelled from the spec: the block hierarchy of the host is missing from
    the sources.  A block holds its own variables and constraints and its
    nested blocks. *)
#[warnings="-register-all"] Inductive Block : Type :=
  mkBlock (own_vars : list VarData) (own_constraints : list ConstraintData)
          (sub_blocks : list Block).

Inductive TraversalStrategy : Type :=
  | PrefixDepthFirstSearch.

(** Modelled from the spec: [m.component_data_objects(ctype=Var,
    descend_into=...)], the traversal of the host.  A block yields its own
    components first and then, when descending, those of its nested blocks
    in order (prefix depth first).  The spec leaves the order free when none
    is asked for; the model uses the same one. *)
Fixpoint component_data_objects_Var (descend_into : bool) (m : Block)
  : list VarData :=
  match m with
  | mkBlock vs _ kids =>
      vs ++ (if descend_into
             then flat_map (component_data_objects_Var descend_into) kids
             else [])
  end.

Fixpoint all_constraints (descend_into : bool) (m : Block)
  : list ConstraintData :=
  match m with
  | mkBlock _ cs kids =>
      cs ++ (if descend_into
             then flat_map (all_constraints descend_into) kids
             else [])
  end.

(** Modelled from the spec: [m.component_data_objects(ctype=Constraint,
    active=..., descend_into=..., descent_order=...)].  With [active=True]
    only the active constraints are produced. *)
Definition component_data_objects_Constraint
    (active_only : bool) (descend_into : bool)
    (descent_order : option TraversalStrategy) (m : Block)
  : list ConstraintData :=
  let cs := match descent_order with
            | None | Some PrefixDepthFirstSearch => all_constraints descend_into m
            end in
  if active_only then filter active cs else cs.

(** Modelled from the spec: the bound queries of the host. *)
Definition has_lb (c : ConstraintData) : bool :=
  match lower c with Some _ => true | None => false end.
Definition has_ub (c : ConstraintData) : bool :=
  match upper c with Some _ => true | None => false end.
Definition var_has_lb (v : VarData) : bool :=
  match var_lb v with Some _ => true | None => false end.
Definition var_has_ub (v : VarData) : bool :=
  match var_ub v with Some _ => true | None => false end.

(** Modelled from the spec: [identify_variables(e, include_fixed=...)]. *)
Definition identify_variables (e : Expression) (include_fixed : bool)
  : list VarData :=
  if include_fixed then expr_vars e
  else filter (fun v => negb (var_fixed v)) (expr_vars e).

(** ** The logger and the world state *)

(** A call of [logger.debug(msg)] or [logger.info(msg)]. *)
Inductive LogRecord : Type :=
  | Debug (msg : string)
  | Info (msg : string).

(** The model and the logger are objects the functions receive by
    reference (the parameters [m] and [logger]); the world holds both. *)
Record World : Type := {
  w_model : Block;
  w_log : list LogRecord
}.

Inductive outcome (A : Type) : Type :=
  | Ok (a : A)
  | Raise (e : exn).

Definition M (A : Type) : Type := World -> outcome A * World.

Definition ret {A} (a : A) : M A := fun w => (Ok a, w).

Definition bind {A B} (p : M A) (k : A -> M B) : M B :=
  fun w => match p w with
           | (Ok a, w') => k a w'
           | (Raise _ e, w') => (Raise B e, w')
           end.

Definition raise {A} (e : exn) : M A := fun w => (Raise A e, w).

Definition get_model : M Block := fun w => (Ok (w_model w), w).

Definition log_append (w : World) (rs : list LogRecord) : World :=
  {| w_model := w_model w; w_log := w_log w ++ rs |}.

Definition logger_info (msg : string) : M unit :=
  fun w => (Ok tt, log_append w [Info msg]).

Definition logger_debug (msg : string) : M unit :=
  fun w => (Ok tt, log_append w [Debug msg]).

End Model.

Arguments VarData num : clear implicits.
Arguments Expression num : clear implicits.
Arguments ConstraintData num : clear implicits.
Arguments Block num : clear implicits.
Arguments World num : clear implicits.
Arguments M num A : clear implicits.
Arguments Ok {A} a.
Arguments Raise {A} e.

Declare Scope report_scope.
Delimit Scope report_scope with report.
Notation "x <- p ;; k" := (bind p (fun x => k))
  (at level 61, p at next level, right associativity) : report_scope.
Notation "p ;; k" := (bind p (fun _ => k))
  (at level 61, right associativity) : report_scope.
Open Scope report_scope.

(** ** The report functions *)

Section Reports.

Context {num : Type} {N : Numeric num}.

Local Abbreviation VarData := (VarData num).
Local Abbreviation ConstraintData := (ConstraintData num).
Local Abbreviation Expression := (Expression num).
Local Abbreviation M := (M num).

(** [for x in xs: body(x)]; a [continue] of the source ends the body of the
    current element. *)
Fixpoint for_each {A} (xs : list A) (loop_body : A -> M unit) : M unit :=
  match xs with
  | [] => ret tt
  | x :: rest => loop_body x ;; for_each rest loop_body
  end.

(** Python's [a and b]: [b] is evaluated only when [a] holds. *)
Definition pyand (a : bool) (b : M bool) : M bool :=
  if a then b else ret false.

(** [value(e, exception=False)]: the value, or nothing when an input of
    the expression is unset; an error of the evaluation itself is not
    caught. *)
Definition value_opt (e : Expression) : M (option num) :=
  match expr_value e with
  | Some x => ret (Some x)
  | None =>
      match expr_error e with
      | Some err => raise err
      | None => ret None
      end
  end.

(** [value(x)] of a bound or of an assigned variable; a missing operand is
    an error of the caller. *)
Definition value (x : option num) : M num :=
  match x with
  | Some a => ret a
  | None => raise TypeError
  end.

(** [value(a - b)]. *)
Definition value_diff (a b : option num) : M num :=
  x <- value a ;; y <- value b ;; ret (sub x y).

(** [str.format] of a value that may be [None]. *)
Definition str_opt (x : option num) : string :=
  match x with
  | Some a => str a
  | None => "None"
  end.

(** [vars_template = "  VAR {name}: {value}"], filled for one variable. *)
Definition vars_template (v : VarData) : string :=
  "  VAR " ++ var_name v ++ ": " ++ str_opt (var_value v).

(** ['\n'.join(vars_template.format(name=v.name, value=v.value)
    for v in identify_variables(constr.body, include_fixed=True))]. *)
Definition var_printout (e : Expression) : string :=
  String.concat nl (map vars_template (identify_variables e true)).

(** [log_template.format( **output_dict )]: the first line always, the
    expression line with [log_expression], the variables with
    [log_variables]. *)
Definition log_template (log_expression log_variables : bool)
    (name lhs_value operation rhs_value lhs_expr rhs_expr printout : string)
  : string :=
  "CONSTR " ++ name ++ ": " ++ lhs_value ++ " " ++ operation ++ " " ++ rhs_value
  ++ (if log_expression
      then nl ++ "  " ++ lhs_expr ++ " " ++ operation ++ " " ++ rhs_expr
      else "")
  ++ (if log_variables then nl ++ printout else "").

(** The body of the loop of [log_infeasible_constraints]. *)
Definition log_infeasible_constraints_body
    (tol : num) (log_expression log_variables : bool)
    (constr : ConstraintData) : M unit :=
  evaluated <- value_opt (body constr) ;;
  match evaluated with
  | None =>
      (* undefined body value due to a missing variable value *)
      logger_info
        ("CONSTR " ++ constr_name constr ++ ": missing variable value."
         ++ (if log_variables then nl ++ var_printout (body constr) else ""))
  | Some constr_body_value =>
      equality_violated <-
        pyand (equality constr)
          (d <- value_diff (lower constr) (Some constr_body_value) ;;
           ret (geq (fabs d) tol)) ;;
      if equality_violated then
        rhs <- value (lower constr) ;;
        logger_info
          (log_template log_expression log_variables
             (constr_name constr) (str constr_body_value) "=/=" (str rhs)
             (expr_text (body constr)) (lower_text constr)
             (var_printout (body constr)))
      else
        lb_violated <-
          pyand (has_lb constr)
            (d <- value_diff (lower constr) (Some constr_body_value) ;;
             ret (geq d tol)) ;;
        (if lb_violated then
           lhs <- value (lower constr) ;;
           logger_info
             (log_template log_expression log_variables
                (constr_name constr) (str lhs) "</=" (str constr_body_value)
                (lower_text constr) (expr_text (body constr))
                (var_printout (body constr)))
         else ret tt) ;;
        ub_violated <-
          pyand (has_ub constr)
            (d <- value_diff (Some constr_body_value) (upper constr) ;;
             ret (geq d tol)) ;;
        if ub_violated then
          rhs <- value (upper constr) ;;
          logger_info
            (log_template log_expression log_variables
               (constr_name constr) (str constr_body_value) "</=" (str rhs)
               (expr_text (body constr)) (upper_text constr)
               (var_printout (body constr)))
        else ret tt
  end.

Definition log_infeasible_constraints
    (tol : num) (log_expression log_variables : bool) : M unit :=
  m <- get_model ;;
  for_each (component_data_objects_Constraint true true None m)
           (log_infeasible_constraints_body tol log_expression log_variables).

(** The body of the loop of [log_infeasible_bounds]. *)
Definition log_infeasible_bounds_body (tol : num) (var : VarData) : M unit :=
  match var_value var with
  | None => logger_debug "Skipping VAR {} with no assigned value."
  | Some _ =>
      lb_violated <-
        pyand (var_has_lb var)
          (d <- value_diff (var_lb var) (var_value var) ;; ret (geq d tol)) ;;
      (if lb_violated then
         x <- value (var_value var) ;;
         l <- value (var_lb var) ;;
         logger_info ("VAR " ++ var_name var ++ ": " ++ str x
                      ++ " < LB " ++ str l)
       else ret tt) ;;
      ub_violated <-
        pyand (var_has_ub var)
          (d <- value_diff (var_value var) (var_ub var) ;; ret (geq d tol)) ;;
      if ub_violated then
        x <- value (var_value var) ;;
        u <- value (var_ub var) ;;
        logger_info ("VAR " ++ var_name var ++ ": " ++ str x
                     ++ " > UB " ++ str u)
      else ret tt
  end.

Definition log_infeasible_bounds (tol : num) : M unit :=
  m <- get_model ;;
  for_each (component_data_objects_Var true m)
           (log_infeasible_bounds_body tol).

(** The body of the first loop of [log_close_to_bounds] (variables). *)
Definition log_close_to_bounds_var_body (tol : num) (var : VarData)
  : M unit :=
  if var_fixed var then ret tt
  else
    match var_value var with
    | None => logger_debug "Skipping VAR {} with no assigned value."
    | Some _ =>
        too_close <-
          pyand (var_has_lb var)
            (pyand (var_has_ub var)
               (d <- value_diff (var_ub var) (var_lb var) ;;
                ret (leq (fabs d) (double tol)))) ;;
        if too_close then ret tt   (* the bounds are too close, skip *)
        else
          near_lb <-
            pyand (var_has_lb var)
              (d <- value_diff (var_lb var) (var_value var) ;;
               ret (leq (fabs d) tol)) ;;
          if near_lb then
            l <- value (var_lb var) ;;
            logger_info (var_name var ++ " near LB of " ++ str l)
          else
            near_ub <-
              pyand (var_has_ub var)
                (d <- value_diff (var_ub var) (var_value var) ;;
                 ret (leq (fabs d) tol)) ;;
            if near_ub then
              u <- value (var_ub var) ;;
              logger_info (var_name var ++ " near UB of " ++ str u)
            else ret tt
    end.

(** The body of the second loop of [log_close_to_bounds] (constraints). *)
Definition log_close_to_bounds_constr_body (tol : num)
    (constr : ConstraintData) : M unit :=
  if negb (equality constr) then
    evaluated <- value_opt (body constr) ;;
    match evaluated with
    | None =>
        logger_info ("Skipping CONSTR " ++ constr_name constr
                     ++ ": missing variable value.")
    | Some body_value =>
        near_ub <-
          pyand (has_ub constr)
            (d <- value_diff (Some body_value) (upper constr) ;;
             ret (leq (fabs d) tol)) ;;
        (if near_ub then logger_info (constr_name constr ++ " near UB")
         else ret tt) ;;
        near_lb <-
          pyand (has_lb constr)
            (d <- value_diff (Some body_value) (lower constr) ;;
             ret (leq (fabs d) tol)) ;;
        if near_lb then logger_info (constr_name constr ++ " near LB")
        else ret tt
    end
  else ret tt.

Definition log_close_to_bounds (tol : num) : M unit :=
  m <- get_model ;;
  for_each (component_data_objects_Var true m)
           (log_close_to_bounds_var_body tol) ;;
  for_each (component_data_objects_Constraint true true None m)
           (log_close_to_bounds_constr_body tol).

(** [log_active_constraints]. *)
Definition log_active_constraints : M unit :=
  m <- get_model ;;
  for_each (component_data_objects_Constraint true true
              (Some PrefixDepthFirstSearch) m)
           (fun constr => logger_info (constr_name constr ++ " active")).

End Reports.

(** ** Exact decimals, a numeric domain for concrete scenarios

    A decimal carries an integer and the number of its digits after the
    point: [{| digits := 51; places := 1 |}] is 5.1, a decimal without
    places is an integer and prints as one. *)

Record decimal : Type := {
  digits : Z;
  places : nat
}.

Definition dec_scale (a : decimal) (p : nat) : Z :=
  (digits a * 10 ^ Z.of_nat (p - places a))%Z.

Definition dec_sub (a b : decimal) : decimal :=
  let p := Nat.max (places a) (places b) in
  {| digits := (dec_scale a p - dec_scale b p)%Z; places := p |}.

Definition dec_fabs (a : decimal) : decimal :=
  {| digits := Z.abs (digits a); places := places a |}.

Definition dec_leq (a b : decimal) : bool :=
  (digits a * 10 ^ Z.of_nat (places b) <=? digits b * 10 ^ Z.of_nat (places a))%Z.

Definition dec_geq (a b : decimal) : bool := dec_leq b a.

Definition dec_double (a : decimal) : decimal :=
  {| digits := (2 * digits a)%Z; places := places a |}.

Definition Z_str (z : Z) : string := NilEmpty.string_of_int (Z.to_int z).

Fixpoint zeros (n : nat) : string :=
  match n with
  | O => ""
  | S k => "0" ++ zeros k
  end.

Definition dec_str (a : decimal) : string :=
  match places a with
  | O => Z_str (digits a)
  | p =>
      let q := Z.quot (Z.abs (digits a)) (10 ^ Z.of_nat p) in
      let r := Z.rem (Z.abs (digits a)) (10 ^ Z.of_nat p) in
      let frac := Z_str r in
      (if (digits a <? 0)%Z then "-" else "")
      ++ Z_str q ++ "." ++ zeros (p - String.length frac) ++ frac
  end.

#[export] Instance Numeric_decimal : Numeric decimal := {
  sub := dec_sub;
  fabs := dec_fabs;
  geq := dec_geq;
  leq := dec_leq;
  double := dec_double;
  str := dec_str
}.

(** An integer and a decimal literal. *)
Definition int (z : Z) : decimal := {| digits := z; places := 0 |}.
Definition dec (z : Z) (p : nat) : decimal := {| digits := z; places := p |}.

(** ** The signatures of the report functions *)

(** The default of a parameter, as the [def] line writes it. *)
Inductive DefaultValue : Type :=
  | FloatLiteral (mantissa exponent : Z)   (* 1E-6 is FloatLiteral 1 (-6) *)
  | BoolLiteral (b : bool)
  | ModuleName (id : string).              (* a name bound in the module *)

Record FormalParameter : Type := {
  param_name : string;
  param_default : option DefaultValue
}.

Inductive ReportFunction : Type :=
  | LogInfeasibleConstraints
  | LogInfeasibleBounds
  | LogCloseToBounds
  | LogActiveConstraints.

Definition positional (name : string) : FormalParameter :=
  {| param_name := name; param_default := None |}.
Definition keyword (name : string) (d : DefaultValue) : FormalParameter :=
  {| param_name := name; param_default := Some d |}.

(** The parameter list of each [def]. *)
Definition signature (f : ReportFunction) : list FormalParameter :=
  match f with
  | LogInfeasibleConstraints =>
      [positional "m"; keyword "tol" (FloatLiteral 1 (-6));
       keyword "logger" (ModuleName "logger");
       keyword "log_expression" (BoolLiteral false);
       keyword "log_variables" (BoolLiteral false)]
  | LogInfeasibleBounds =>
      [positional "m"; keyword "tol" (FloatLiteral 1 (-6));
       keyword "logger" (ModuleName "logger")]
  | LogCloseToBounds =>
      [positional "m"; keyword "tol" (FloatLiteral 1 (-6));
       keyword "logger" (ModuleName "logger")]
  | LogActiveConstraints =>
      [positional "m"; keyword "logger" (ModuleName "logger")]
  end.

(** What the interface description asks of a signature. *)
Definition takes_model (f : ReportFunction) : Prop :=
  hd_error (signature f) = Some (positional "m").
Definition takes_tolerance (f : ReportFunction) : Prop :=
  In (keyword "tol" (FloatLiteral 1 (-6))) (signature f).
Definition takes_logger (f : ReportFunction) : Prop :=
  In (keyword "logger" (ModuleName "logger")) (signature f).

(** The report a function name stands for, run with the given arguments. *)
Definition run_report {num} {N : Numeric num} (f : ReportFunction)
    (tol : num) (log_expression log_variables : bool) : M num unit :=
  match f with
  | LogInfeasibleConstraints =>
      log_infeasible_constraints tol log_expression log_variables
  | LogInfeasibleBounds => log_infeasible_bounds tol
  | LogCloseToBounds => log_close_to_bounds tol
  | LogActiveConstraints => log_active_constraints
  end.

(** ** What a computation logs *)

Section Emission.

Context {num : Type}.

Local Abbreviation M := (M num).
Local Abbreviation World := (World num).

(** [emits p lines]: from every world, [p] returns normally, appends exactly
    [lines] to the log and leaves the rest of the world as it was. *)
Definition emits (p : M unit) (lines : list LogRecord) : Prop :=
  forall w : World, p w = (Ok tt, log_append w lines).

(** [frame p]: whatever [p] does, normal return or exception, the model
    of the final world is the initial one and the log has only grown. *)
Definition frame {A} (p : M A) : Prop :=
  forall w : World, exists lines,
    snd (p w) = log_append w lines.

(** The records a loop body appends, run from an empty log. *)
Definition lines_of (p : M unit) : list LogRecord :=
  w_log (snd (p {| w_model := mkBlock [] [] []; w_log := [] |})).

End Emission.

(** ** The classification rules, as the specification words them

    Each definition below gives the records one rule contributes for one
    entity; the theorems compare them with what the loop bodies do. *)

Section Rules.

Context {num : Type} {N : Numeric num}.

Local Abbreviation VarData := (VarData num).
Local Abbreviation ConstraintData := (ConstraintData num).

(** The line of a violated equality: body value, "=/=", bound value. *)
Definition equality_line (log_expression log_variables : bool)
    (c : ConstraintData) (b l : num) : LogRecord :=
  Info (log_template log_expression log_variables (constr_name c)
          (str b) "=/=" (str l)
          (expr_text (body c)) (lower_text c) (var_printout (body c))).

(** Lower bound of a constraint: a line when the bound exists and
    lower - body >= tolerance, shown as bound "</=" body. *)
Definition lower_violation (tol : num) (log_expression log_variables : bool)
    (c : ConstraintData) (b : num) : list LogRecord :=
  match lower c with
  | Some l =>
      if geq (sub l b) tol
      then [Info (log_template log_expression log_variables (constr_name c)
                    (str l) "</=" (str b)
                    (lower_text c) (expr_text (body c))
                    (var_printout (body c)))]
      else []
  | None => []
  end.

(** Upper bound of a constraint: a line when the bound exists and
    body - upper >= tolerance, shown as body "</=" bound. *)
Definition upper_violation (tol : num) (log_expression log_variables : bool)
    (c : ConstraintData) (b : num) : list LogRecord :=
  match upper c with
  | Some u =>
      if geq (sub b u) tol
      then [Info (log_template log_expression log_variables (constr_name c)
                    (str b) "</=" (str u)
                    (expr_text (body c)) (upper_text c)
                    (var_printout (body c)))]
      else []
  | None => []
  end.

(** The skip line of a constraint whose body has no value, in
    [log_infeasible_constraints]. *)
Definition missing_value_line (log_variables : bool) (c : ConstraintData)
  : LogRecord :=
  Info ("CONSTR " ++ constr_name c ++ ": missing variable value."
        ++ (if log_variables then nl ++ var_printout (body c) else "")).

(** Lower bound of a variable: "value < LB bound" when the bound exists and
    lower - value >= tolerance. *)
Definition below_lb (tol : num) (v : VarData) (x : num) : list LogRecord :=
  match var_lb v with
  | Some l =>
      if geq (sub l x) tol
      then [Info ("VAR " ++ var_name v ++ ": " ++ str x ++ " < LB " ++ str l)]
      else []
  | None => []
  end.

(** Upper bound of a variable: "value > UB bound" when the bound exists and
    value - upper >= tolerance. *)
Definition above_ub (tol : num) (v : VarData) (x : num) : list LogRecord :=
  match var_ub v with
  | Some u =>
      if geq (sub x u) tol
      then [Info ("VAR " ++ var_name v ++ ": " ++ str x ++ " > UB " ++ str u)]
      else []
  | None => []
  end.

(** Both bounds of a variable exist and |upper - lower| <= 2 x tolerance. *)
Definition bounds_too_close (tol : num) (v : VarData) : bool :=
  match var_lb v, var_ub v with
  | Some l, Some u => leq (fabs (sub u l)) (double tol)
  | _, _ => false
  end.

(** The lower bound of a variable exists and |lower - value| <= tolerance. *)
Definition var_near_lb (tol : num) (v : VarData) (x : num) : bool :=
  match var_lb v with
  | Some l => leq (fabs (sub l x)) tol
  | None => false
  end.

(** The upper bound of a variable exists and |upper - value| <= tolerance. *)
Definition var_near_ub (tol : num) (v : VarData) (x : num) : bool :=
  match var_ub v with
  | Some u => leq (fabs (sub u x)) tol
  | None => false
  end.

(** The upper bound of a constraint exists and |body - upper| <= tolerance. *)
Definition constr_near_ub (tol : num) (c : ConstraintData) (b : num) : bool :=
  match upper c with
  | Some u => leq (fabs (sub b u)) tol
  | None => false
  end.

(** The lower bound of a constraint exists and |body - lower| <= tolerance. *)
Definition constr_near_lb (tol : num) (c : ConstraintData) (b : num) : bool :=
  match lower c with
  | Some l => leq (fabs (sub b l)) tol
  | None => false
  end.

(** The lines of a variable near a bound. *)
Definition near_lb_line (v : VarData) : LogRecord :=
  Info (var_name v ++ " near LB of " ++ str_opt (var_lb v)).
Definition near_ub_line (v : VarData) : LogRecord :=
  Info (var_name v ++ " near UB of " ++ str_opt (var_ub v)).

(** The skip line of a constraint whose body has no value, in
    [log_close_to_bounds]. *)
Definition skip_constr_line (c : ConstraintData) : LogRecord :=
  Info ("Skipping CONSTR " ++ constr_name c ++ ": missing variable value.").

(** The debug line of a variable without a value. *)
Definition skip_var_line : LogRecord :=
  Debug "Skipping VAR {} with no assigned value.".

End Rules.

(** The module-level logger, [logging.getLogger('pyomo.util.infeasible')]
    set to level [logging.INFO]: the default of every [logger] parameter.
    A logger outputs the records of its level and above; what the reports
    hand to it is recorded in the world whatever the level. *)
Definition DEBUG : nat := 10.
Definition INFO : nat := 20.

Record Logger : Type := {
  logger_name : string;
  level : nat
}.

Definition logger : Logger :=
  {| logger_name := "pyomo.util.infeasible"; level := INFO |}.

Definition levelno (r : LogRecord) : nat :=
  match r with
  | Debug _ => DEBUG
  | Info _ => INFO
  end.

Definition isEnabledFor (lg : Logger) (r : LogRecord) : bool :=
  (level lg <=? levelno r)%nat.

(** The records a logger outputs among those handed to it. *)
Definition handled (lg : Logger) (records : list LogRecord)
  : list LogRecord :=
  filter (isEnabledFor lg) records.

(** A constraint the equality test can be made on: flagged as an equality,
    it has its target. *)
Definition has_target {num} (c : ConstraintData num) : Prop :=
  equality c = true -> lower c <> None.

(** ** Concrete models over the exact decimals *)

(** The default tolerance, 1E-6. *)
Definition tol6 : decimal := dec 1 6.

Definition constant_body (x : option decimal) : Expression decimal :=
  {| expr_value := x; expr_error := None; expr_vars := [];
     expr_text := "e" |}.

(** An equality constraint with body 5.0 and target 5.1. *)
Definition scenario_equality : ConstraintData decimal :=
  {| constr_name := "name"; body := constant_body (Some (dec 50 1));
     lower := Some (dec 51 1); upper := Some (dec 51 1);
     lower_text := "5.1"; upper_text := "5.1";
     equality := true; active := true |}.

(** An inequality constraint with lower bound 0 and body -1. *)
Definition scenario_lower : ConstraintData decimal :=
  {| constr_name := "name"; body := constant_body (Some (int (-1)));
     lower := Some (int 0); upper := None;
     lower_text := "0"; upper_text := "None";
     equality := false; active := true |}.

(** A range constraint whose bounds cross: lower 10, upper 0, body 5. *)
Definition scenario_crossing : ConstraintData decimal :=
  {| constr_name := "name"; body := constant_body (Some (int 5));
     lower := Some (int 10); upper := Some (int 0);
     lower_text := "10"; upper_text := "0";
     equality := false; active := true |}.

(** A range constraint 0 <= body <= 2 with body 1. *)
Definition scenario_range : ConstraintData decimal :=
  {| constr_name := "c"; body := constant_body (Some (int 1));
     lower := Some (int 0); upper := Some (int 2);
     lower_text := "0"; upper_text := "2";
     equality := false; active := true |}.

(** An active equality constraint whose body has no value. *)
Definition scenario_unset_equality : ConstraintData decimal :=
  {| constr_name := "e"; body := constant_body None;
     lower := Some (int 0); upper := Some (int 0);
     lower_text := "0"; upper_text := "0";
     equality := true; active := true |}.

(** An active inequality constraint whose body has no value. *)
Definition scenario_unset_range : ConstraintData decimal :=
  {| constr_name := "r"; body := constant_body None;
     lower := Some (int 0); upper := None;
     lower_text := "0"; upper_text := "None";
     equality := false; active := true |}.

(** An inactive inequality constraint whose body has no value. *)
Definition scenario_inactive_unset : ConstraintData decimal :=
  {| constr_name := "i"; body := constant_body None;
     lower := Some (int 0); upper := None;
     lower_text := "0"; upper_text := "None";
     equality := false; active := false |}.

(** An inequality constraint p <= e whose lower bound is a parameter p of
    value 0, with body -1. *)
Definition scenario_parameter_bound : ConstraintData decimal :=
  {| constr_name := "name"; body := constant_body (Some (int (-1)));
     lower := Some (int 0); upper := None;
     lower_text := "p"; upper_text := "None";
     equality := false; active := true |}.

(** An active inequality constraint whose body divides by zero. *)
Definition scenario_failing : ConstraintData decimal :=
  {| constr_name := "f";
     body := {| expr_value := None; expr_error := Some ZeroDivisionError;
                expr_vars := []; expr_text := "1/x" |};
     lower := Some (int 0); upper := None;
     lower_text := "0"; upper_text := "None";
     equality := false; active := true |}.

(** A fixed variable that has no value. *)
Definition scenario_fixed_unset : VarData decimal :=
  {| var_name := "x"; var_value := None; var_lb := Some (int 0);
     var_ub := Some (int 10); var_fixed := true |}.

(** A free variable that has no value. *)
Definition scenario_free_unset : VarData decimal :=
  {| var_name := "y"; var_value := None; var_lb := Some (int 0);
     var_ub := Some (int 10); var_fixed := false |}.

(** A free variable in [0, 10] with value 10.0000001. *)
Definition scenario_near_ub : VarData decimal :=
  {| var_name := "x"; var_value := Some (dec 100000001 7);
     var_lb := Some (int 0); var_ub := Some (int 10); var_fixed := false |}.

(** A free variable in [0, 0.000001] sitting on its lower bound. *)
Definition scenario_narrow : VarData decimal :=
  {| var_name := "z"; var_value := Some (int 0);
     var_lb := Some (int 0); var_ub := Some (dec 1 6); var_fixed := false |}.

(** A variable whose bounds cross: lower 10, upper 0, value 5. *)
Definition scenario_var_crossing : VarData decimal :=
  {| var_name := "v"; var_value := Some (int 5);
     var_lb := Some (int 10); var_ub := Some (int 0); var_fixed := false |}.

(** A model holding a fixed variable without a value and an active equality
    constraint whose body has no value. *)
Definition scenario_silent_model : Block decimal :=
  mkBlock [scenario_fixed_unset] [scenario_unset_equality] [].

(** ** IEEE binary64, the floats of Python

    The arithmetic of a Python [float] is that of the primitive floats.
    How Python prints a float ([repr]) is left open. *)

Module Binary64.

Import PrimFloat.
#[local] Set Warnings "-inexact-float".

Definition Numeric_float (repr : float -> string) : Numeric float :=
  Build_Numeric
    PrimFloat.sub                     (* a - b *)
    PrimFloat.abs                     (* math.fabs(a) *)
    (fun a b => PrimFloat.leb b a)    (* a >= b *)
    PrimFloat.leb                     (* a <= b *)
    (fun a => PrimFloat.mul 2 a)      (* 2 * a *)
    repr.

(** The default tolerance, the float 1E-6. *)
Definition tol : float := 1e-6%float.

Definition f5_0 : float := 5.0%float.
Definition f5_1 : float := 5.1%float.
Definition f10 : float := 10%float.

(** An equality constraint with body 5.0 and target 5.1. *)
Definition equality_5_0_5_1 : ConstraintData float :=
  {| constr_name := "name";
     body := {| expr_value := Some f5_0; expr_error := None;
                expr_vars := [];
                expr_text := "e" |};
     lower := Some f5_1; upper := Some f5_1;
     lower_text := "5.1"; upper_text := "5.1";
     equality := true; active := true |}.

(** A free variable in [0, 10] with value 10.0000001. *)
Definition x_near_ub : VarData float :=
  {| var_name := "x"; var_value := Some 10.0000001%float;
     var_lb := Some 0%float; var_ub := Some f10; var_fixed := false |}.

End Binary64.

(** ** Whole-model reports, as a user reads them *)

Section ModelReports.

Context {num : Type} {N : Numeric num}.

(** What [log_infeasible_constraints] reports for one constraint: the skip
    line when the body has no value, the "=/=" line when an equality is off
    by the tolerance or more, the bound lines otherwise. *)
Definition constraint_report (tol : num) (log_expression log_variables : bool)
    (c : ConstraintData num) : list LogRecord :=
  match expr_value (body c) with
  | None => [missing_value_line log_variables c]
  | Some b =>
      match (if equality c then lower c else None) with
      | Some l =>
          if geq (fabs (sub l b)) tol
          then [equality_line log_expression log_variables c b l]
          else lower_violation tol log_expression log_variables c b
               ++ upper_violation tol log_expression log_variables c b
      | None =>
          lower_violation tol log_expression log_variables c b
          ++ upper_violation tol log_expression log_variables c b
      end
  end.

(** A variable that [log_infeasible_bounds] has nothing to say about: it
    has a value, and the value is short of violating either bound by the
    tolerance. *)
Definition var_within_bounds (tol : num) (v : VarData num) : bool :=
  match var_value v with
  | None => false
  | Some x =>
      match var_lb v with
      | Some l => negb (geq (sub l x) tol)
      | None => true
      end
      &&
      match var_ub v with
      | Some u => negb (geq (sub x u) tol)
      | None => true
      end
  end.

(** What [log_infeasible_bounds] reports for one variable once the records
    below the level of the logger are dropped. *)
Definition bound_violations (tol : num) (v : VarData num) : list LogRecord :=
  match var_value v with
  | None => []
  | Some x => below_lb tol v x ++ above_ub tol v x
  end.

(** The text of a record. *)
Definition message (r : LogRecord) : string :=
  match r with
  | Debug msg => msg
  | Info msg => msg
  end.

(** [r] is the record [r0] with more text after it. *)
Definition extends (r r0 : LogRecord) : Prop :=
  exists suffix : string,
    r = Info (message r0 ++ suffix) /\ r0 = Info (message r0).

(** The records a report adds to the log of a model. *)
Definition new_records (report : M num unit) (m : Block num)
  : list LogRecord :=
  w_log (snd (report {| w_model := m; w_log := [] |})).

(** What [log_infeasible_bounds] hands to the logger for one variable. *)
Definition variable_report (tol : num) (v : VarData num) : list LogRecord :=
  match var_value v with
  | None => [skip_var_line]
  | Some x => below_lb tol v x ++ above_ub tol v x
  end.

(** What the first loop of [log_close_to_bounds] hands to the logger for
    one variable: nothing for a fixed one, the skip line for one without a
    value, nothing when the bounds are too close, else the near-bound line
    of the lower bound before that of the upper bound. *)
Definition variable_near_report (tol : num) (v : VarData num)
  : list LogRecord :=
  if var_fixed v then []
  else
    match var_value v with
    | None => [skip_var_line]
    | Some x =>
        if bounds_too_close tol v then []
        else if var_near_lb tol v x then [near_lb_line v]
        else if var_near_ub tol v x then [near_ub_line v]
        else []
    end.

(** What the second loop of [log_close_to_bounds] hands to the logger for
    one constraint: nothing for an equality, the skip line when the body
    has no value, else the line of the upper bound and then that of the
    lower bound, each when the body is near it. *)
Definition constraint_near_report (tol : num) (c : ConstraintData num)
  : list LogRecord :=
  if equality c then []
  else
    match expr_value (body c) with
    | None => [skip_constr_line c]
    | Some b =>
        (if constr_near_ub tol c b
         then [Info (constr_name c ++ " near UB")] else [])
        ++ (if constr_near_lb tol c b
            then [Info (constr_name c ++ " near LB")] else [])
    end.

End ModelReports.

(** The body of a constraint can be evaluated: where it has no value, that
    is for an unset variable and not for an error of the evaluation. *)
Definition evaluable {num} (c : ConstraintData num) : Prop :=
  expr_value (body c) = None -> expr_error (body c) = None.

(** A constraint [log_infeasible_constraints] gets through: its body can
    be evaluated and, flagged as an equality, it has its target. *)
Definition reportable {num} (c : ConstraintData num) : Prop :=
  evaluable c /\ has_target c.

(** A constraint [log_close_to_bounds] gets through: unless it is an
    equality, which is not looked at, its body can be evaluated. *)
Definition analysable {num} (c : ConstraintData num) : Prop :=
  equality c = false -> evaluable c.

(** [yields p r lines]: from every world, [p] ends with the outcome [r],
    a normal return or an exception, having appended exactly [lines]. *)
Definition yields {num} (p : M num unit) (r : outcome unit)
    (lines : list LogRecord) : Prop :=
  forall w : World num, p w = (r, log_append w lines).

(** A tolerance can be traded for a smaller one: what reaches the larger
    threshold reaches the smaller. *)
Class ThresholdLaw (num : Type) (N : Numeric num) : Prop := {
  geq_weaken : forall d t t' : num,
      leq t t' = true -> geq d t' = true -> geq d t = true
}.

(** ** More concrete models *)

(** An inactive constraint flagged as an equality that has no target. *)
Definition scenario_inactive_broken : ConstraintData decimal :=
  {| constr_name := "off"; body := constant_body (Some (int 1));
     lower := None; upper := None;
     lower_text := "None"; upper_text := "None";
     equality := true; active := false |}.

(** A model with a nested block. *)
Definition scenario_nested_model : Block decimal :=
  mkBlock [scenario_var_crossing; scenario_free_unset]
          [scenario_equality; scenario_inactive_broken; scenario_lower]
          [mkBlock [scenario_near_ub]
                   [scenario_crossing; scenario_unset_range] []].

(** A constraint between 0 and 10 whose body evaluates to NaN, and a
    variable whose value is NaN. *)
Definition scenario_nan_constraint : ConstraintData PrimFloat.float :=
  {| constr_name := "c";
     body := {| expr_value := Some PrimFloat.nan; expr_error := None;
                expr_vars := [];
                expr_text := "e" |};
     lower := Some PrimFloat.zero; upper := Some Binary64.f10;
     lower_text := "0.0"; upper_text := "10.0";
     equality := false; active := true |}.

Definition scenario_nan_variable : VarData PrimFloat.float :=
  {| var_name := "x"; var_value := Some PrimFloat.nan;
     var_lb := Some PrimFloat.zero; var_ub := Some Binary64.f10;
     var_fixed := false |}.

(** Members of a set of dimension 4 made of integers. *)
Definition scenario_members : list (list Z) :=
  [[10; 2; 3; 4]%Z; [9; 2; 3; 4]%Z; [1; 20; 3; 4]%Z].

(** * The listing script [doc/OnlineDocs/tests/data/set5.py]

    The script loads a set of tuples and prints its members sorted by
    [key=lambda x: tuple(map(str, x))]. *)

Section Listing.

(** A member of a tuple (a number or a string of the data file) and its
    text, Python's [str(x)]. *)
Variable atom : Type.
Variable py_str : atom -> string.

(** [tuple(map(str, x))]. *)
Definition key (x : list atom) : list string := map py_str x.

(** [a < b] on tuples of strings: the first position where they differ
    decides, by the order of strings; a proper prefix is smaller. *)
Fixpoint tuple_ltb (a b : list string) : bool :=
  match a, b with
  | _, [] => false
  | [], _ :: _ => true
  | x :: a', y :: b' =>
      match String.compare x y with
      | Lt => true
      | Eq => tuple_ltb a' b'
      | Gt => false
      end
  end.

(** Modelled from Python: [sorted(xs, key=...)] is a stable sort that
    compares the keys with [<].  Each member is put before the first member
    of the sorted rest whose key is not smaller than its own. *)
Fixpoint insert_by_key (x : list atom) (rest : list (list atom))
  : list (list atom) :=
  match rest with
  | [] => [x]
  | y :: rest' =>
      if tuple_ltb (key y) (key x) then y :: insert_by_key x rest'
      else x :: y :: rest'
  end.

Definition sorted (xs : list (list atom)) : list (list atom) :=
  fold_right insert_by_key [] xs.

(** The tuples the script prints, in order, for the members of the set in
    the order the set yields them ([list(instance.A.data())]). *)
Definition set5 (data : list (list atom)) : list (list atom) :=
  sorted data.

(** [a] may be printed before [b]: the key of [b] is not smaller. *)
Definition key_le (a b : list atom) : Prop :=
  tuple_ltb (key b) (key a) = false.

(** Equality of keys, as a test. *)
Definition same_key (k : list string) (x : list atom) : bool :=
  if list_eq_dec string_dec (key x) k then true else false.

End Listing.

(** * Proofs *)

Lemma decimal_laws : NumericLaws Numeric_decimal.
Proof.
  split; simpl.
  - intros a b. unfold dec_fabs, dec_sub; simpl.
    rewrite (Nat.max_comm (places b) (places a)).
    f_equal. lia.
  - intros a t. unfold dec_geq, dec_leq, dec_fabs; simpl.
    rewrite !Z.leb_le. intros H.
    assert (Hp : (0 < 10 ^ Z.of_nat (places t))%Z) by (apply Z.pow_pos_nonneg; lia).
    assert (Ha : (digits a <= Z.abs (digits a))%Z) by lia.
    nia.
Qed.

(** ** The laws hold for binary64 *)

Section SpecFloatFacts.
Variables prec emax : Z.

Lemma SFabs_binary_round_aux (sx sy : bool) (m e : Z) (l : SpecFloat.location) :
  SpecFloat.SFabs (SpecFloat.binary_round_aux prec emax sx m e l) =
  SpecFloat.SFabs (SpecFloat.binary_round_aux prec emax sy m e l).
Proof.
  unfold SpecFloat.binary_round_aux.
  destruct (SpecFloat.shr_fexp prec emax m e l) as [mrs' e'].
  destruct (SpecFloat.shr_fexp prec emax _ e' SpecFloat.loc_Exact) as [mrs'' e''].
  destruct (SpecFloat.shr_m mrs''); simpl; try reflexivity.
  destruct (Z.leb e'' (Z.sub emax prec)); reflexivity.
Qed.

Lemma SFabs_binary_round (sx sy : bool) (m : positive) (e : Z) :
  SpecFloat.SFabs (SpecFloat.binary_round prec emax sx m e) =
  SpecFloat.SFabs (SpecFloat.binary_round prec emax sy m e).
Proof.
  unfold SpecFloat.binary_round.
  destruct (SpecFloat.shl_align m e _) as [mz ez].
  apply SFabs_binary_round_aux.
Qed.

Lemma SFabs_binary_normalize_opp (m e : Z) (s : bool) :
  SpecFloat.SFabs (SpecFloat.binary_normalize prec emax (- m) e s) =
  SpecFloat.SFabs (SpecFloat.binary_normalize prec emax m e s).
Proof.
  destruct m; simpl; try reflexivity; apply SFabs_binary_round.
Qed.

Lemma SFabs_SFsub_swap (x y : SpecFloat.spec_float) :
  SpecFloat.SFabs (SpecFloat.SFsub prec emax x y) =
  SpecFloat.SFabs (SpecFloat.SFsub prec emax y x).
Proof.
  destruct x as [sx|sx| |sx mx ex], y as [sy|sy| |sy my ey];
    try reflexivity; try (destruct sx, sy; reflexivity).
  unfold SpecFloat.SFsub. cbv zeta.
  rewrite (Z.min_comm ey ex).
  match goal with
  | |- context [SpecFloat.binary_normalize _ _ (?a - ?b)%Z] =>
      replace (b - a)%Z with (- (a - b))%Z by lia
  end.
  symmetry. apply SFabs_binary_normalize_opp.
Qed.

Lemma SFleb_SFabs (t x : SpecFloat.spec_float) :
  SpecFloat.SFleb t x = true -> SpecFloat.SFleb t (SpecFloat.SFabs x) = true.
Proof.
  unfold SpecFloat.SFleb.
  destruct t as [[]|[]| |[] mt et], x as [[]|[]| |[] mx ex]; simpl;
    trivial; discriminate.
Qed.
End SpecFloatFacts.

Lemma float_abs_sub_swap (a b : PrimFloat.float) :
  PrimFloat.abs (PrimFloat.sub a b) = PrimFloat.abs (PrimFloat.sub b a).
Proof.
  apply FloatAxioms.Prim2SF_inj.
  rewrite !FloatAxioms.abs_spec, !FloatAxioms.sub_spec.
  apply SFabs_SFsub_swap.
Qed.

Lemma float_leb_abs (t a : PrimFloat.float) :
  PrimFloat.leb t a = true -> PrimFloat.leb t (PrimFloat.abs a) = true.
Proof.
  rewrite !FloatAxioms.leb_spec, FloatAxioms.abs_spec.
  apply SFleb_SFabs.
Qed.

Lemma float_laws (repr : PrimFloat.float -> string) :
  NumericLaws (Binary64.Numeric_float repr).
Proof.
  split; simpl.
  - apply float_abs_sub_swap.
  - intros a t. apply float_leb_abs.
Qed.

(** ** The algebra of [emits] and [frame] *)

Section EmissionLemmas.

Context {num : Type}.

Local Abbreviation M := (M num).
Local Abbreviation World := (World num).

Lemma append_empty (s : string) : s ++ "" = s.
Proof. induction s as [|a s IH]; simpl; [reflexivity | now rewrite IH]. Qed.

Lemma log_append_nil (w : World) : log_append w [] = w.
Proof. destruct w; unfold log_append; simpl. now rewrite app_nil_r. Qed.

Lemma log_append_app (w : World) (a b : list LogRecord) :
  log_append (log_append w a) b = log_append w (a ++ b).
Proof. unfold log_append; simpl. now rewrite app_assoc. Qed.

Lemma emits_ret : emits (num := num) (ret tt) [].
Proof. intros w. unfold ret. now rewrite log_append_nil. Qed.

Lemma emits_info (msg : string) : emits (num := num) (logger_info msg) [Info msg].
Proof. intros w. reflexivity. Qed.

Lemma emits_debug (msg : string) :
  emits (num := num) (logger_debug msg) [Debug msg].
Proof. intros w. reflexivity. Qed.

Lemma emits_seq (p q : M unit) (a b : list LogRecord) :
  emits p a -> emits q b -> emits (p ;; q) (a ++ b).
Proof.
  intros Hp Hq w. unfold bind. rewrite Hp, Hq. now rewrite log_append_app.
Qed.

Lemma emits_for_each {A} (xs : list A) (f : A -> M unit)
    (g : A -> list LogRecord) :
  (forall x, In x xs -> emits (f x) (g x)) ->
  emits (for_each xs f) (flat_map g xs).
Proof.
  induction xs as [|x rest IH]; intros H; simpl.
  - apply emits_ret.
  - apply emits_seq.
    + apply H. now left.
    + apply IH. intros y Hy. apply H. now right.
Qed.

Lemma emits_lines_of (p : M unit) (lines : list LogRecord) :
  emits p lines -> lines_of p = lines.
Proof. intros H. unfold lines_of. now rewrite H. Qed.

Lemma emits_unique (p : M unit) (a b : list LogRecord) :
  emits p a -> emits p b -> a = b.
Proof.
  intros Ha Hb. rewrite <- (emits_lines_of Ha). apply emits_lines_of, Hb.
Qed.

(** One turn of a loop whose body returns normally. *)
Lemma for_each_step {A} (x : A) (rest : list A) (f : A -> M unit)
    (lines : list LogRecord) (w : World) :
  emits (f x) lines ->
  for_each (x :: rest) f w = for_each rest f (log_append w lines).
Proof. intros H. simpl. unfold bind. now rewrite H. Qed.

Lemma frame_ret {A} (a : A) : frame (num := num) (ret a).
Proof. intros w. exists []. simpl. now rewrite log_append_nil. Qed.

Lemma frame_raise {A} (e : exn) : frame (num := num) (raise (A := A) e).
Proof. intros w. exists []. simpl. now rewrite log_append_nil. Qed.

Lemma frame_get_model : frame (num := num) get_model.
Proof. intros w. exists []. simpl. now rewrite log_append_nil. Qed.

Lemma frame_info (msg : string) : frame (num := num) (logger_info msg).
Proof. intros w. now exists [Info msg]. Qed.

Lemma frame_debug (msg : string) : frame (num := num) (logger_debug msg).
Proof. intros w. now exists [Debug msg]. Qed.

Lemma frame_bind {A B} (p : M A) (k : A -> M B) :
  frame p -> (forall a, frame (k a)) -> frame (bind p k).
Proof.
  intros Hp Hk w. unfold bind.
  destruct (Hp w) as [l1 H1]. destruct (p w) as [[a|e] w1]; simpl in *; subst w1.
  - destruct (Hk a (log_append w l1)) as [l2 H2].
    exists (l1 ++ l2)%list. now rewrite H2, log_append_app.
  - now exists l1.
Qed.

Lemma frame_for_each {A} (xs : list A) (f : A -> M unit) :
  (forall x, frame (f x)) -> frame (for_each xs f).
Proof.
  intros Hf. induction xs as [|x rest IH]; simpl.
  - apply frame_ret.
  - apply frame_bind; [apply Hf | intros _; exact IH].
Qed.

Lemma frame_model {A} (p : M A) (w : World) :
  frame p -> w_model (snd (p w)) = w_model w.
Proof. intros H. destruct (H w) as [l Hl]. now rewrite Hl. Qed.

Lemma frame_log {A} (p : M A) (w : World) :
  frame p -> exists lines, w_log (snd (p w)) = (w_log w ++ lines)%list.
Proof. intros H. destruct (H w) as [l Hl]. exists l. now rewrite Hl. Qed.

End EmissionLemmas.

Create HintDb frame.
#[local] Hint Resolve frame_ret frame_raise frame_get_model frame_info
  frame_debug : frame.

Ltac finish_run :=
  simpl; rewrite ?log_append_app, ?log_append_nil; simpl; try reflexivity.

Ltac run_body :=
  intros ?w;
  unfold bind, pyand, value_diff, value, ret, raise, logger_info,
    logger_debug, value_opt;
  finish_run.

Ltac split_tests :=
  repeat (match goal with
          | |- context [if geq ?a ?t then _ else _] => destruct (geq a t)
          | |- context [if leq ?a ?t then _ else _] => destruct (leq a t)
          end; finish_run).

Ltac frame_step :=
  match goal with
  | |- frame (ret _) => apply frame_ret
  | |- frame (raise _) => apply frame_raise
  | |- frame get_model => apply frame_get_model
  | |- frame (logger_info _) => apply frame_info
  | |- frame (logger_debug _) => apply frame_debug
  | |- frame (bind _ _) => apply frame_bind; [|intros ?]
  | |- frame (for_each _ _) => apply frame_for_each; intros ?
  | |- frame (pyand _ _) => unfold pyand
  | |- frame (value_diff _ _) => unfold value_diff
  | |- frame (value _) => unfold value
  | |- frame (value_opt _) => unfold value_opt
  | |- frame (if ?b then _ else _) => destruct b
  | |- frame (match ?x with _ => _ end) => destruct x
  end.

(** ** What each loop body logs *)

Section Bodies.

Context {num : Type} {N : Numeric num}.

Local Abbreviation VarData := (VarData num).
Local Abbreviation ConstraintData := (ConstraintData num).

Lemma infeasible_constraints_unset
    (tol : num) (le lv : bool) (c : ConstraintData) :
  expr_value (body c) = None ->
  expr_error (body c) = None ->
  emits (log_infeasible_constraints_body tol le lv c)
        [missing_value_line lv c].
Proof.
  intros Hb He. unfold log_infeasible_constraints_body, value_opt.
  rewrite Hb, He. intros w. reflexivity.
Qed.

(** The equality test fired: the "=/=" line and nothing else, whatever the
    bounds are ([continue]). *)
Lemma infeasible_constraints_equality_fires
    (tol : num) (le lv : bool) (c : ConstraintData) (b l : num) :
  expr_value (body c) = Some b ->
  equality c = true ->
  lower c = Some l ->
  geq (fabs (sub l b)) tol = true ->
  emits (log_infeasible_constraints_body tol le lv c)
        [equality_line le lv c b l].
Proof.
  intros Hb He Hl Ht.
  unfold log_infeasible_constraints_body, value_opt.
  rewrite Hb, He, Hl. run_body. now rewrite Ht.
Qed.

(** The equality test did not fire or was not made: the two bound checks
    run one after the other. *)
Lemma infeasible_constraints_bounds
    (tol : num) (le lv : bool) (c : ConstraintData) (b : num) :
  expr_value (body c) = Some b ->
  (equality c = false \/
   exists l, lower c = Some l /\ geq (fabs (sub l b)) tol = false) ->
  emits (log_infeasible_constraints_body tol le lv c)
        (lower_violation tol le lv c b ++ upper_violation tol le lv c b).
Proof.
  intros Hb Hcase.
  unfold log_infeasible_constraints_body, value_opt, lower_violation,
    upper_violation, has_lb, has_ub.
  rewrite Hb.
  destruct Hcase as [He | [l [Hl Ht]]].
  - rewrite He.
    destruct (lower c) as [l|], (upper c) as [u|]; run_body; split_tests.
  - rewrite Hl.
    destruct (equality c), (upper c) as [u|]; run_body; rewrite ?Ht;
      finish_run; split_tests.
Qed.

(** For an equality constraint within tolerance of its target, neither
    bound check can fire. *)
Lemma equality_bounds_silent
    (L : NumericLaws N) (tol : num) (le lv : bool) (c : ConstraintData)
    (b l : num) :
  lower c = Some l ->
  upper c = Some l ->
  geq (fabs (sub l b)) tol = false ->
  lower_violation tol le lv c b = [] /\ upper_violation tol le lv c b = [].
Proof.
  intros Hl Hu Ht. unfold lower_violation, upper_violation.
  rewrite Hl, Hu. split.
  - destruct (geq (sub l b) tol) eqn:E; [|reflexivity].
    apply geq_fabs in E. congruence.
  - destruct (geq (sub b l) tol) eqn:E; [|reflexivity].
    apply geq_fabs in E. rewrite fabs_sub_swap in E. congruence.
Qed.

Lemma infeasible_bounds_unset (tol : num) (v : VarData) :
  var_value v = None ->
  emits (log_infeasible_bounds_body tol v) [skip_var_line].
Proof.
  intros Hv. unfold log_infeasible_bounds_body. rewrite Hv.
  apply emits_debug.
Qed.

Lemma infeasible_bounds_assigned (tol : num) (v : VarData) (x : num) :
  var_value v = Some x ->
  emits (log_infeasible_bounds_body tol v) (below_lb tol v x ++ above_ub tol v x).
Proof.
  intros Hv.
  unfold log_infeasible_bounds_body, below_lb, above_ub, var_has_lb,
    var_has_ub.
  rewrite Hv.
  destruct (var_lb v) as [l|], (var_ub v) as [u|]; run_body; split_tests.
Qed.

Lemma close_var_fixed (tol : num) (v : VarData) :
  var_fixed v = true ->
  emits (log_close_to_bounds_var_body tol v) [].
Proof.
  intros Hf. unfold log_close_to_bounds_var_body. rewrite Hf.
  apply emits_ret.
Qed.

Lemma close_var_unset (tol : num) (v : VarData) :
  var_fixed v = false ->
  var_value v = None ->
  emits (log_close_to_bounds_var_body tol v) [skip_var_line].
Proof.
  intros Hf Hv. unfold log_close_to_bounds_var_body. rewrite Hf, Hv.
  apply emits_debug.
Qed.

Lemma close_var_assigned (tol : num) (v : VarData) (x : num) :
  var_fixed v = false ->
  var_value v = Some x ->
  emits (log_close_to_bounds_var_body tol v)
        (if bounds_too_close tol v then []
         else if var_near_lb tol v x then [near_lb_line v]
         else if var_near_ub tol v x then [near_ub_line v]
         else []).
Proof.
  intros Hf Hv.
  unfold log_close_to_bounds_var_body, bounds_too_close, var_near_lb,
    var_near_ub, near_lb_line, near_ub_line, var_has_lb, var_has_ub.
  rewrite Hf, Hv.
  destruct (var_lb v) as [l|], (var_ub v) as [u|]; run_body; split_tests.
Qed.

Lemma close_constr_equality (tol : num) (c : ConstraintData) :
  equality c = true ->
  emits (log_close_to_bounds_constr_body tol c) [].
Proof.
  intros He. unfold log_close_to_bounds_constr_body. rewrite He.
  apply emits_ret.
Qed.

Lemma close_constr_unset (tol : num) (c : ConstraintData) :
  equality c = false ->
  expr_value (body c) = None ->
  expr_error (body c) = None ->
  emits (log_close_to_bounds_constr_body tol c) [skip_constr_line c].
Proof.
  intros He Hb Herr. unfold log_close_to_bounds_constr_body, value_opt.
  rewrite He, Hb, Herr. intros w. reflexivity.
Qed.

Lemma close_constr_assigned (tol : num) (c : ConstraintData) (b : num) :
  equality c = false ->
  expr_value (body c) = Some b ->
  emits (log_close_to_bounds_constr_body tol c)
        ((if constr_near_ub tol c b then [Info (constr_name c ++ " near UB")]
          else [])
         ++ (if constr_near_lb tol c b then [Info (constr_name c ++ " near LB")]
             else [])).
Proof.
  intros He Hb.
  unfold log_close_to_bounds_constr_body, value_opt, constr_near_ub,
    constr_near_lb, has_lb, has_ub.
  rewrite He, Hb.
  destruct (lower c) as [l|], (upper c) as [u|]; run_body; split_tests.
Qed.

(** Each loop body, on an entity it gets through, hands to the logger what
    the rules say. *)
Lemma variable_report_body (tol : num) (v : VarData) :
  emits (log_infeasible_bounds_body tol v) (variable_report tol v).
Proof.
  unfold variable_report.
  destruct (var_value v) as [x|] eqn:Hv.
  - now apply infeasible_bounds_assigned.
  - now apply infeasible_bounds_unset.
Qed.

Lemma variable_near_report_body (tol : num) (v : VarData) :
  emits (log_close_to_bounds_var_body tol v) (variable_near_report tol v).
Proof.
  unfold variable_near_report.
  destruct (var_fixed v) eqn:Hf.
  - now apply close_var_fixed.
  - destruct (var_value v) as [x|] eqn:Hv.
    + now apply close_var_assigned.
    + now apply close_var_unset.
Qed.

Lemma constraint_near_report_body (tol : num) (c : ConstraintData) :
  analysable c ->
  emits (log_close_to_bounds_constr_body tol c)
        (constraint_near_report tol c).
Proof.
  intros Ha. unfold constraint_near_report.
  destruct (equality c) eqn:He.
  - now apply close_constr_equality.
  - destruct (expr_value (body c)) as [b|] eqn:Hb.
    + now apply close_constr_assigned.
    + apply close_constr_unset; auto. now apply Ha.
Qed.

Lemma constraint_report_body
    (tol : num) (le lv : bool) (c : ConstraintData) :
  reportable c ->
  emits (log_infeasible_constraints_body tol le lv c)
        (constraint_report tol le lv c).
Proof.
  intros [Hev Hwf]. unfold constraint_report.
  destruct (expr_value (body c)) as [b|] eqn:Hb.
  - destruct (equality c) eqn:He.
    + destruct (lower c) as [l|] eqn:Hl; [|now elim Hwf].
      destruct (geq (fabs (sub l b)) tol) eqn:Ht.
      * now apply infeasible_constraints_equality_fires.
      * apply infeasible_constraints_bounds; eauto.
    + apply infeasible_constraints_bounds; auto.
  - apply infeasible_constraints_unset; auto.
Qed.

(** An evaluation that fails ends the turn, and the report, with its
    exception and without a record. *)
Lemma infeasible_constraints_fails
    (tol : num) (le lv : bool) (c : ConstraintData) (err : exn) :
  expr_value (body c) = None ->
  expr_error (body c) = Some err ->
  yields (log_infeasible_constraints_body tol le lv c) (Raise err) [].
Proof.
  intros Hb He w. unfold log_infeasible_constraints_body, value_opt, bind.
  rewrite Hb, He. unfold raise. now rewrite log_append_nil.
Qed.

Lemma close_constr_fails (tol : num) (c : ConstraintData) (err : exn) :
  equality c = false ->
  expr_value (body c) = None ->
  expr_error (body c) = Some err ->
  yields (log_close_to_bounds_constr_body tol c) (Raise err) [].
Proof.
  intros Heq Hb He w.
  unfold log_close_to_bounds_constr_body, value_opt, bind.
  rewrite Heq, Hb, He. unfold raise. simpl. now rewrite log_append_nil.
Qed.

Lemma infeasible_bounds_body_total (tol : num) (v : VarData) :
  emits (log_infeasible_bounds_body tol v)
        (lines_of (log_infeasible_bounds_body tol v)).
Proof.
  destruct (var_value v) as [x|] eqn:Hv.
  - pose proof (infeasible_bounds_assigned tol v Hv) as H.
    now rewrite (emits_lines_of H).
  - pose proof (infeasible_bounds_unset tol v Hv) as H.
    now rewrite (emits_lines_of H).
Qed.

End Bodies.

(** ** The loops: a run is the sequence of its turns *)

Lemma for_each_reach {num A} (f : A -> M num unit) (g : A -> list LogRecord)
    (pre : list A) (x : A) (post : list A) (lines : list LogRecord)
    (w : World num) :
  (forall y, In y pre -> emits (f y) (g y)) ->
  emits (f x) lines ->
  for_each (pre ++ x :: post) f w =
  for_each post f (log_append w (flat_map g pre ++ lines)).
Proof.
  revert w. induction pre as [|y pre IH]; intros w Hpre Hx; simpl.
  - unfold bind. now rewrite Hx.
  - unfold bind. rewrite (Hpre y (or_introl eq_refl)).
    rewrite IH by (auto; intros z Hz; apply Hpre; now right).
    now rewrite log_append_app, app_assoc.
Qed.

Lemma yields_seq_ok {num} (p q : M num unit) (r : outcome unit)
    (a b : list LogRecord) :
  yields p (Ok tt) a -> yields q r b -> yields (p ;; q) r (a ++ b).
Proof.
  intros Hp Hq w. unfold bind. rewrite Hp, Hq. now rewrite log_append_app.
Qed.

Lemma yields_seq_raise {num} (p q : M num unit) (err : exn)
    (a : list LogRecord) :
  yields p (Raise err) a -> yields (p ;; q) (Raise err) a.
Proof. intros Hp w. unfold bind. now rewrite Hp. Qed.

Lemma yields_ret {num} : yields (num := num) (ret tt) (Ok tt) [].
Proof. intros w. unfold ret. now rewrite log_append_nil. Qed.

Section Runs.

Context {num : Type} {N : Numeric num}.

Local Abbreviation VarData := (VarData num).
Local Abbreviation ConstraintData := (ConstraintData num).
Local Abbreviation Block := (Block num).

Lemma log_infeasible_bounds_run
    (tol : num) (m : Block) (lg : list LogRecord) :
  log_infeasible_bounds tol {| w_model := m; w_log := lg |} =
  (Ok tt,
   {| w_model := m;
      w_log := lg ++ flat_map
                 (fun v => lines_of (log_infeasible_bounds_body tol v))
                 (component_data_objects_Var true m) |}).
Proof.
  unfold log_infeasible_bounds, bind, get_model. simpl.
  rewrite (@emits_for_each num _ _ _
             (fun v => lines_of (log_infeasible_bounds_body tol v))).
  - reflexivity.
  - intros v _. apply infeasible_bounds_body_total.
Qed.

Lemma log_infeasible_bounds_reported
    (tol : num) (m : Block) (lg : list LogRecord) :
  log_infeasible_bounds tol {| w_model := m; w_log := lg |} =
  (Ok tt,
   {| w_model := m;
      w_log := lg ++ flat_map (variable_report tol)
                       (component_data_objects_Var true m) |}).
Proof.
  unfold log_infeasible_bounds, bind, get_model. simpl.
  rewrite (@emits_for_each num _ _ _ (variable_report tol)).
  - reflexivity.
  - intros v _. apply variable_report_body.
Qed.

(** [log_infeasible_constraints] up to a constraint its run gets to. *)
Lemma infeasible_constraints_reach
    (tol : num) (le lv : bool) (m : Block) (lg : list LogRecord)
    (pre : list ConstraintData) (c : ConstraintData)
    (post : list ConstraintData) (lines : list LogRecord) :
  component_data_objects_Constraint true true None m =
    (pre ++ c :: post)%list ->
  Forall reportable pre ->
  emits (log_infeasible_constraints_body tol le lv c) lines ->
  log_infeasible_constraints tol le lv {| w_model := m; w_log := lg |} =
  for_each post (log_infeasible_constraints_body tol le lv)
    {| w_model := m;
       w_log := lg ++ flat_map (constraint_report tol le lv) pre ++ lines |}.
Proof.
  intros Hsplit Hpre Hc.
  unfold log_infeasible_constraints, bind, get_model. cbn [w_model].
  rewrite Hsplit.
  rewrite (@for_each_reach num _ _ (constraint_report tol le lv)
             pre c post lines); auto.
  intros y Hy. apply constraint_report_body.
  rewrite Forall_forall in Hpre. now apply Hpre.
Qed.

Lemma log_infeasible_constraints_reported
    (tol : num) (le lv : bool) (m : Block) (lg : list LogRecord) :
  Forall reportable (filter active (all_constraints true m)) ->
  log_infeasible_constraints tol le lv {| w_model := m; w_log := lg |} =
  (Ok tt,
   {| w_model := m;
      w_log := lg ++ flat_map (constraint_report tol le lv)
                       (filter active (all_constraints true m)) |}).
Proof.
  intros Hwf. unfold log_infeasible_constraints, bind, get_model. simpl.
  unfold component_data_objects_Constraint.
  rewrite (@emits_for_each num _ _ _ (constraint_report tol le lv)).
  - reflexivity.
  - intros c Hc. apply constraint_report_body.
    rewrite Forall_forall in Hwf. now apply Hwf.
Qed.

(** [log_close_to_bounds] once its first loop is over. *)
Lemma close_to_bounds_variables_done
    (tol : num) (m : Block) (lg : list LogRecord) :
  log_close_to_bounds tol {| w_model := m; w_log := lg |} =
  for_each (component_data_objects_Constraint true true None m)
    (log_close_to_bounds_constr_body tol)
    {| w_model := m;
       w_log := lg ++ flat_map (variable_near_report tol)
                        (component_data_objects_Var true m) |}.
Proof.
  unfold log_close_to_bounds, bind, get_model. simpl.
  rewrite (@emits_for_each num _ _ _ (variable_near_report tol))
    by (intros v _; apply variable_near_report_body).
  reflexivity.
Qed.

(** [log_close_to_bounds] up to a constraint its run gets to. *)
Lemma close_to_bounds_reach
    (tol : num) (m : Block) (lg : list LogRecord)
    (pre : list ConstraintData) (c : ConstraintData)
    (post : list ConstraintData) (lines : list LogRecord) :
  component_data_objects_Constraint true true None m =
    (pre ++ c :: post)%list ->
  Forall analysable pre ->
  emits (log_close_to_bounds_constr_body tol c) lines ->
  log_close_to_bounds tol {| w_model := m; w_log := lg |} =
  for_each post (log_close_to_bounds_constr_body tol)
    {| w_model := m;
       w_log := lg
         ++ flat_map (variable_near_report tol)
              (component_data_objects_Var true m)
         ++ flat_map (constraint_near_report tol) pre ++ lines |}.
Proof.
  intros Hsplit Hpre Hc. rewrite close_to_bounds_variables_done, Hsplit.
  rewrite (@for_each_reach num _ _ (constraint_near_report tol)
             pre c post lines); auto.
  - unfold log_append. simpl. now rewrite <- app_assoc.
  - intros y Hy. apply constraint_near_report_body.
    rewrite Forall_forall in Hpre. now apply Hpre.
Qed.

Lemma log_close_to_bounds_reported
    (tol : num) (m : Block) (lg : list LogRecord) :
  Forall analysable (filter active (all_constraints true m)) ->
  log_close_to_bounds tol {| w_model := m; w_log := lg |} =
  (Ok tt,
   {| w_model := m;
      w_log := lg
        ++ flat_map (variable_near_report tol)
             (component_data_objects_Var true m)
        ++ flat_map (constraint_near_report tol)
             (filter active (all_constraints true m)) |}).
Proof.
  intros Hwf. rewrite close_to_bounds_variables_done.
  unfold component_data_objects_Constraint.
  rewrite (@emits_for_each num _ _ _ (constraint_near_report tol)).
  - unfold log_append. simpl. now rewrite <- app_assoc.
  - intros c Hc. apply constraint_near_report_body.
    rewrite Forall_forall in Hwf. now apply Hwf.
Qed.

(** No report writes to the model, whether it returns or raises. *)
Lemma frame_log_infeasible_constraints (tol : num) (le lv : bool) :
  frame (log_infeasible_constraints tol le lv).
Proof.
  unfold log_infeasible_constraints, log_infeasible_constraints_body.
  repeat frame_step.
Qed.

Lemma frame_log_infeasible_bounds (tol : num) :
  frame (log_infeasible_bounds tol).
Proof.
  unfold log_infeasible_bounds, log_infeasible_bounds_body.
  repeat frame_step.
Qed.

Lemma frame_log_close_to_bounds (tol : num) :
  frame (log_close_to_bounds tol).
Proof.
  unfold log_close_to_bounds, log_close_to_bounds_var_body,
    log_close_to_bounds_constr_body.
  repeat frame_step.
Qed.

Lemma frame_log_active_constraints :
  frame (num := num) log_active_constraints.
Proof.
  unfold log_active_constraints. repeat frame_step.
Qed.

End Runs.

Lemma flat_map_filter_silent {A B} (p : A -> bool) (g : A -> list B)
    (xs : list A) :
  (forall x, p x = false -> g x = []) ->
  flat_map g xs = flat_map g (filter p xs).
Proof.
  intros Hg. induction xs as [|x rest IH]; simpl; [reflexivity|].
  destruct (p x) eqn:E; simpl.
  - now rewrite IH.
  - now rewrite (Hg x E), IH.
Qed.

(** The module-level logger outputs the [Info] records and drops the
    [Debug] ones. *)
Lemma module_logger_output (msg : string) :
  handled logger [Info msg] = [Info msg] /\ handled logger [Debug msg] = [].
Proof. split; reflexivity. Qed.

(** With [log_expression] the second line of a record shows the bound as
    the model writes it, here the parameter and not its value. *)
Lemma parameter_bound_scenario :
  log_infeasible_constraints tol6 true false
    {| w_model := mkBlock [] [scenario_parameter_bound] []; w_log := [] |} =
  (Ok tt,
   {| w_model := mkBlock [] [scenario_parameter_bound] [];
      w_log := [Info ("CONSTR name: 0 </= -1" ++ nl ++ "  p </= e")] |}).
Proof. reflexivity. Qed.

(** An error of the evaluation of a body ends the report with that error;
    what was logged before stays, what comes after is not reported. *)
Lemma failing_body_scenario :
  log_infeasible_constraints tol6 false false
    {| w_model := mkBlock [] [scenario_lower; scenario_failing;
                              scenario_crossing] [];
       w_log := [] |} =
  (Raise ZeroDivisionError,
   {| w_model := mkBlock [] [scenario_lower; scenario_failing;
                             scenario_crossing] [];
      w_log := [Info "CONSTR name: 0 </= -1"] |}).
Proof. reflexivity. Qed.

(** ** Properties of the reports *)

(** C1. In [log_infeasible_constraints], an active equality constraint
    whose body evaluates gets a violation line if and only if
    |body - lower| >= tolerance; the line shows the body value, "=/=" and
    the bound value in that order.  The run of the function that gets to
    the constraint has logged, at that point, the lines of the constraints
    before it and this line or nothing, and goes on with the constraints
    after it.  With body 5.0, target 5.1 and tolerance 1e-6 the function
    logs "CONSTR name: 5.0 =/= 5.1". *)
Theorem equality_violation_line :
  (forall (num : Type) (N : Numeric num) (L : NumericLaws N)
          (tol : num) (log_expression log_variables : bool)
          (m : Block num) (lg : list LogRecord)
          (pre : list (ConstraintData num)) (c : ConstraintData num)
          (post : list (ConstraintData num)) (b l : num),
      component_data_objects_Constraint true true None m =
        (pre ++ c :: post)%list ->
      Forall reportable pre ->
      equality c = true ->
      expr_value (body c) = Some b ->
      lower c = Some l ->
      upper c = Some l ->
      log_infeasible_constraints tol log_expression log_variables
        {| w_model := m; w_log := lg |} =
      for_each post
        (log_infeasible_constraints_body tol log_expression log_variables)
        {| w_model := m;
           w_log := lg
             ++ flat_map (constraint_report tol log_expression log_variables)
                  pre
             ++ (if geq (fabs (sub b l)) tol
                 then [equality_line log_expression log_variables c b l]
                 else []) |}
      /\ equality_line false false c b l =
         Info ("CONSTR " ++ constr_name c ++ ": " ++ str b ++ " =/= " ++ str l))
  /\ log_infeasible_constraints tol6 false false
       {| w_model := mkBlock [] [scenario_equality] []; w_log := [] |} =
     (Ok tt,
      {| w_model := mkBlock [] [scenario_equality] [];
         w_log := [Info "CONSTR name: 5.0 =/= 5.1"] |}).
Proof.
  split.
  - intros num N L tol le lv m lg pre c post b l Hsplit Hpre He Hb Hl Hu.
    split.
    + apply (@infeasible_constraints_reach _ _ tol le lv m lg pre c post); auto.
      rewrite (fabs_sub_swap b l).
      destruct (geq (fabs (sub l b)) tol) eqn:Ht.
      * now apply infeasible_constraints_equality_fires.
      * destruct (equality_bounds_silent L tol le lv c b Hl Hu Ht) as [E1 E2].
        assert (H : emits (log_infeasible_constraints_body tol le lv c)
                      (lower_violation tol le lv c b ++ upper_violation tol le lv c b))
          by (apply infeasible_constraints_bounds; eauto).
        now rewrite E1, E2 in H.
    + unfold equality_line, log_template. simpl.
      now rewrite append_empty.
  - reflexivity.
Qed.

Lemma equality_violation_line_witness :
  log_infeasible_constraints tol6 false false
    {| w_model := scenario_nested_model; w_log := [] |} =
  (Ok tt,
   {| w_model := scenario_nested_model;
      w_log := [Info "CONSTR name: 5.0 =/= 5.1";
                Info "CONSTR name: 0 </= -1";
                Info "CONSTR name: 10 </= 5";
                Info "CONSTR name: 5 </= 0";
                Info "CONSTR r: missing variable value."] |}).
Proof.
  exact (proj1 (proj1 equality_violation_line decimal Numeric_decimal
                  decimal_laws tol6 false false scenario_nested_model []
                  [] scenario_equality
                  [scenario_lower; scenario_crossing; scenario_unset_range]
                  (dec 50 1) (dec 51 1)
                  eq_refl (Forall_nil _) eq_refl eq_refl eq_refl eq_refl)).
Defined.

(** C2. In [log_infeasible_constraints], for an active non-equality
    constraint whose body evaluates, the two bound checks are independent:
    a line for the lower bound exactly when it exists and lower - body >=
    tolerance (bound "</=" body), then a line for the upper bound exactly
    when it exists and body - upper >= tolerance (body "</=" bound).  The
    run of the function that gets to the constraint has logged, at that
    point, the lines of the constraints before it and these lines, and goes
    on with the constraints after it.  With lower bound 0 and body -1 the
    function logs "CONSTR name: 0 </= -1"; both lines can be logged for one
    constraint. *)
Theorem inequality_bounds_independent :
  (forall (num : Type) (N : Numeric num)
          (tol : num) (log_expression log_variables : bool)
          (m : Block num) (lg : list LogRecord)
          (pre : list (ConstraintData num)) (c : ConstraintData num)
          (post : list (ConstraintData num)) (b : num),
      component_data_objects_Constraint true true None m =
        (pre ++ c :: post)%list ->
      Forall reportable pre ->
      equality c = false ->
      expr_value (body c) = Some b ->
      log_infeasible_constraints tol log_expression log_variables
        {| w_model := m; w_log := lg |} =
      for_each post
        (log_infeasible_constraints_body tol log_expression log_variables)
        {| w_model := m;
           w_log := lg
             ++ flat_map (constraint_report tol log_expression log_variables)
                  pre
             ++ (lower_violation tol log_expression log_variables c b
                 ++ upper_violation tol log_expression log_variables c b) |}
      /\ lower_violation tol false false c b =
         match lower c with
         | Some l =>
             if geq (sub l b) tol
             then [Info ("CONSTR " ++ constr_name c ++ ": "
                         ++ str l ++ " </= " ++ str b)]
             else []
         | None => []
         end
      /\ upper_violation tol false false c b =
         match upper c with
         | Some u =>
             if geq (sub b u) tol
             then [Info ("CONSTR " ++ constr_name c ++ ": "
                         ++ str b ++ " </= " ++ str u)]
             else []
         | None => []
         end)
  /\ log_infeasible_constraints tol6 false false
       {| w_model := mkBlock [] [scenario_lower] []; w_log := [] |} =
     (Ok tt,
      {| w_model := mkBlock [] [scenario_lower] [];
         w_log := [Info "CONSTR name: 0 </= -1"] |})
  /\ log_infeasible_constraints tol6 false false
       {| w_model := mkBlock [] [scenario_crossing] []; w_log := [] |} =
     (Ok tt,
      {| w_model := mkBlock [] [scenario_crossing] [];
         w_log := [Info "CONSTR name: 10 </= 5";
                   Info "CONSTR name: 5 </= 0"] |}).
Proof.
  split; [|split].
  - intros num N tol le lv m lg pre c post b Hsplit Hpre He Hb.
    split; [|split].
    + apply (@infeasible_constraints_reach _ _ tol le lv m lg pre c post); auto.
      apply infeasible_constraints_bounds; auto.
    + unfold lower_violation, log_template. simpl.
      destruct (lower c) as [l|]; [|reflexivity].
      now rewrite append_empty.
    + unfold upper_violation, log_template. simpl.
      destruct (upper c) as [u|]; [|reflexivity].
      now rewrite append_empty.
  - reflexivity.
  - reflexivity.
Qed.

Lemma scenario_equality_reportable : Forall reportable [scenario_equality].
Proof.
  repeat constructor; unfold evaluable, has_target; simpl; intros;
    discriminate.
Defined.

Lemma inequality_bounds_independent_witness :
  log_infeasible_constraints tol6 true false
    {| w_model := scenario_nested_model; w_log := [] |} =
  for_each [scenario_crossing; scenario_unset_range]
    (log_infeasible_constraints_body tol6 true false)
    {| w_model := scenario_nested_model;
       w_log := constraint_report tol6 true false scenario_equality
         ++ lower_violation tol6 true false scenario_lower (int (-1))
         ++ upper_violation tol6 true false scenario_lower (int (-1)) |}.
Proof.
  exact (proj1 (proj1 inequality_bounds_independent decimal Numeric_decimal
                  tol6 true false scenario_nested_model []
                  [scenario_equality] scenario_lower
                  [scenario_crossing; scenario_unset_range] (int (-1))
                  eq_refl scenario_equality_reportable eq_refl eq_refl)).
Defined.

(** C3. In [log_infeasible_constraints], an equality constraint (its lower
    bound is its upper bound) whose body evaluates never gets a "</=" line:
    it gets the single "=/=" line or nothing.  Once the equality test has
    fired the bound checks are not reached, whatever the bounds are. *)
Theorem equality_at_most_one_line :
  (forall (num : Type) (N : Numeric num) (L : NumericLaws N)
          (tol : num) (log_expression log_variables : bool)
          (c : ConstraintData num) (b l : num),
      equality c = true ->
      expr_value (body c) = Some b ->
      lower c = Some l ->
      upper c = Some l ->
      exists lines,
        emits (log_infeasible_constraints_body tol log_expression log_variables c)
              lines
        /\ (lines = [] \/
            lines = [equality_line log_expression log_variables c b l]))
  /\ (forall (num : Type) (N : Numeric num)
             (tol : num) (log_expression log_variables : bool)
             (c : ConstraintData num) (b l : num),
         equality c = true ->
         expr_value (body c) = Some b ->
         lower c = Some l ->
         geq (fabs (sub l b)) tol = true ->
         emits (log_infeasible_constraints_body tol log_expression log_variables c)
               [equality_line log_expression log_variables c b l]).
Proof.
  split.
  - intros num N L tol le lv c b l He Hb Hl Hu.
    destruct (geq (fabs (sub l b)) tol) eqn:Ht.
    + exists [equality_line le lv c b l]. split; [|now right].
      now apply infeasible_constraints_equality_fires.
    + exists []. split; [|now left].
      destruct (equality_bounds_silent L tol le lv c b Hl Hu Ht) as [E1 E2].
      assert (H : emits (log_infeasible_constraints_body tol le lv c)
                    (lower_violation tol le lv c b ++ upper_violation tol le lv c b))
        by (apply infeasible_constraints_bounds; eauto).
      now rewrite E1, E2 in H.
  - intros num N tol le lv c b l He Hb Hl Ht.
    now apply infeasible_constraints_equality_fires.
Qed.

Lemma equality_at_most_one_line_witness :
  exists lines,
    emits (log_infeasible_constraints_body tol6 true false scenario_equality)
          lines
    /\ (lines = [] \/
        lines = [equality_line true false scenario_equality
                   (dec 50 1) (dec 51 1)]).
Proof.
  exact (proj1 equality_at_most_one_line decimal Numeric_decimal decimal_laws
           tol6 true false scenario_equality (dec 50 1) (dec 51 1)
           eq_refl eq_refl eq_refl eq_refl).
Defined.

(** C4, as the code has it.  An entity that a report gets to and whose
    value is unset gets exactly one skip record in the invocation, no other
    line, no exception, and the report goes on with the next entity: an
    [Info] record for an active constraint in [log_infeasible_constraints],
    a [Debug] record for a variable in [log_infeasible_bounds], and in
    [log_close_to_bounds] a [Debug] record for a free variable and an
    [Info] record for an active non-equality constraint.  A fixed variable
    and an equality constraint get no record from [log_close_to_bounds],
    and an inactive constraint is not visited by either report. *)
Theorem unset_entities_skipped :
  forall (num : Type) (N : Numeric num) (tol : num),
    (forall (log_expression log_variables : bool)
            (m : Block num) (lg : list LogRecord)
            (pre : list (ConstraintData num)) (c : ConstraintData num)
            (post : list (ConstraintData num)),
        component_data_objects_Constraint true true None m =
          (pre ++ c :: post)%list ->
        Forall reportable pre ->
        expr_value (body c) = None ->
        expr_error (body c) = None ->
        log_infeasible_constraints tol log_expression log_variables
          {| w_model := m; w_log := lg |} =
        for_each post
          (log_infeasible_constraints_body tol log_expression log_variables)
          {| w_model := m;
             w_log := lg
               ++ flat_map
                    (constraint_report tol log_expression log_variables) pre
               ++ [missing_value_line log_variables c] |})
    /\ (forall (m : Block num) (lg : list LogRecord)
               (pre : list (VarData num)) (v : VarData num)
               (post : list (VarData num)),
           component_data_objects_Var true m = (pre ++ v :: post)%list ->
           var_value v = None ->
           log_infeasible_bounds tol {| w_model := m; w_log := lg |} =
           (Ok tt,
            {| w_model := m;
               w_log := lg ++ flat_map (variable_report tol) pre
                 ++ [skip_var_line]
                 ++ flat_map (variable_report tol) post |}))
    /\ (forall (m : Block num) (lg : list LogRecord)
               (pre : list (VarData num)) (v : VarData num)
               (post : list (VarData num)),
           component_data_objects_Var true m = (pre ++ v :: post)%list ->
           var_value v = None ->
           log_close_to_bounds tol {| w_model := m; w_log := lg |} =
           for_each (component_data_objects_Constraint true true None m)
             (log_close_to_bounds_constr_body tol)
             {| w_model := m;
                w_log := lg ++ flat_map (variable_near_report tol) pre
                  ++ (if var_fixed v then [] else [skip_var_line])
                  ++ flat_map (variable_near_report tol) post |})
    /\ (forall (m : Block num) (lg : list LogRecord)
               (pre : list (ConstraintData num)) (c : ConstraintData num)
               (post : list (ConstraintData num)),
           component_data_objects_Constraint true true None m =
             (pre ++ c :: post)%list ->
           Forall analysable pre ->
           expr_value (body c) = None ->
           expr_error (body c) = None ->
           log_close_to_bounds tol {| w_model := m; w_log := lg |} =
           for_each post (log_close_to_bounds_constr_body tol)
             {| w_model := m;
                w_log := lg
                  ++ flat_map (variable_near_report tol)
                       (component_data_objects_Var true m)
                  ++ flat_map (constraint_near_report tol) pre
                  ++ (if equality c then [] else [skip_constr_line c]) |})
    /\ (forall (m : Block num) (order : option TraversalStrategy)
               (c : ConstraintData num),
           In c (component_data_objects_Constraint true true order m) ->
           active c = true).
Proof.
  intros num N tol. split; [|split; [|split; [|split]]].
  - intros le lv m lg pre c post Hsplit Hpre Hb He.
    apply (@infeasible_constraints_reach _ _ tol le lv m lg pre c post); auto.
    now apply infeasible_constraints_unset.
  - intros m lg pre v post Hsplit Hv.
    rewrite log_infeasible_bounds_reported, Hsplit, flat_map_app. simpl.
    unfold variable_report at 2. now rewrite Hv.
  - intros m lg pre v post Hsplit Hv.
    rewrite close_to_bounds_variables_done, Hsplit, flat_map_app. simpl.
    unfold variable_near_report at 2. now rewrite Hv.
  - intros m lg pre c post Hsplit Hpre Hb He.
    apply (@close_to_bounds_reach _ _ tol m lg pre c post); auto.
    destruct (equality c) eqn:Heq.
    + now apply close_constr_equality.
    + now apply close_constr_unset.
  - intros m order c Hin.
    unfold component_data_objects_Constraint in Hin.
    apply filter_In in Hin. destruct order as [[]|]; tauto.
Qed.

Lemma unset_entities_skipped_witness :
  log_infeasible_constraints tol6 false false
    {| w_model := scenario_nested_model; w_log := [] |} =
  (Ok tt,
   {| w_model := scenario_nested_model;
      w_log := [Info "CONSTR name: 5.0 =/= 5.1";
                Info "CONSTR name: 0 </= -1";
                Info "CONSTR name: 10 </= 5";
                Info "CONSTR name: 5 </= 0";
                Info "CONSTR r: missing variable value."] |})
  /\ log_close_to_bounds tol6
       {| w_model := mkBlock [scenario_free_unset] [] []; w_log := [] |} =
     (Ok tt,
      {| w_model := mkBlock [scenario_free_unset] [] [];
         w_log := [Debug "Skipping VAR {} with no assigned value."] |}).
Proof.
  pose proof (unset_entities_skipped Numeric_decimal tol6)
    as [Hc [_ [Hv _]]].
  split.
  - refine (Hc false false scenario_nested_model []
              [scenario_equality; scenario_lower; scenario_crossing]
              scenario_unset_range [] eq_refl _ eq_refl eq_refl).
    repeat constructor; unfold evaluable, has_target; simpl; intros;
      discriminate.
  - exact (Hv (mkBlock [scenario_free_unset] [] []) [] []
              scenario_free_unset [] eq_refl eq_refl).
Defined.

(** C4, as it is worded, fails: in [log_close_to_bounds] a fixed variable
    without a value and an active equality constraint whose body has no
    value get no skip record at all, and in [log_infeasible_constraints] an
    inactive constraint whose body has no value gets none either. *)
Lemma unset_entities_without_skip_line :
  var_value scenario_fixed_unset = None
  /\ expr_value (body scenario_unset_equality) = None
  /\ active scenario_unset_equality = true
  /\ log_close_to_bounds tol6
       {| w_model := scenario_silent_model; w_log := [] |} =
     (Ok tt, {| w_model := scenario_silent_model; w_log := [] |})
  /\ expr_value (body scenario_inactive_unset) = None
  /\ log_infeasible_constraints tol6 false false
       {| w_model := mkBlock [] [scenario_inactive_unset] []; w_log := [] |} =
     (Ok tt,
      {| w_model := mkBlock [] [scenario_inactive_unset] []; w_log := [] |}).
Proof. repeat split. Qed.

(** C5. In [log_close_to_bounds], for a free variable with a value: when
    both bounds exist and |upper - lower| <= 2 x tolerance no line is
    logged, even for a value that sits on a bound; otherwise "near LB" is
    logged when |lower - value| <= tolerance, else "near UB" when
    |upper - value| <= tolerance, so at most one line per variable.  When
    its first loop is over the function has logged exactly these lines,
    variable after variable, and goes on with the constraints. *)
Theorem near_bound_variable_rule :
  (forall (num : Type) (N : Numeric num) (tol : num)
          (m : Block num) (lg : list LogRecord),
      log_close_to_bounds tol {| w_model := m; w_log := lg |} =
      for_each (component_data_objects_Constraint true true None m)
        (log_close_to_bounds_constr_body tol)
        {| w_model := m;
           w_log := lg ++ flat_map (variable_near_report tol)
                            (component_data_objects_Var true m) |})
  /\ (forall (num : Type) (N : Numeric num) (tol : num)
             (v : VarData num) (x : num),
         var_fixed v = false ->
         var_value v = Some x ->
         variable_near_report tol v =
           (if bounds_too_close tol v then []
            else if var_near_lb tol v x then [near_lb_line v]
            else if var_near_ub tol v x then [near_ub_line v]
            else [])
         /\ (List.length (variable_near_report tol v) <= 1)%nat)
  /\ (var_near_lb tol6 scenario_narrow (int 0) = true
      /\ log_close_to_bounds tol6
           {| w_model := mkBlock [scenario_narrow] [] []; w_log := [] |} =
         (Ok tt,
          {| w_model := mkBlock [scenario_narrow] [] []; w_log := [] |}))
  /\ log_close_to_bounds tol6
       {| w_model := mkBlock [scenario_near_ub] [] []; w_log := [] |} =
     (Ok tt,
      {| w_model := mkBlock [scenario_near_ub] [] [];
         w_log := [Info "x near UB of 10"] |}).
Proof.
  split; [|split; [|split; [split|]]].
  - intros num N tol m lg. apply close_to_bounds_variables_done.
  - intros num N tol v x Hf Hv. unfold variable_near_report.
    rewrite Hf, Hv. split; [reflexivity|].
    destruct (bounds_too_close tol v), (var_near_lb tol v x),
      (var_near_ub tol v x); simpl; lia.
  - reflexivity.
  - reflexivity.
  - reflexivity.
Qed.

Lemma near_bound_variable_rule_witness :
  variable_near_report tol6 scenario_near_ub = [near_ub_line scenario_near_ub]
  /\ (List.length (variable_near_report tol6 scenario_near_ub) <= 1)%nat.
Proof.
  exact (proj1 (proj2 near_bound_variable_rule) decimal Numeric_decimal tol6
           scenario_near_ub (dec 100000001 7) eq_refl eq_refl).
Defined.

(** C6. In [log_close_to_bounds] only the active non-equality constraints
    are analysed: provided their bodies can be evaluated, the function logs
    the lines of the variables and then, constraint after constraint, the
    lines of the active non-equality constraints, and nothing for an
    equality or an inactive constraint.  For such a constraint whose body
    evaluates the two checks are independent: "near UB" exactly when the
    upper bound exists and |body - upper| <= tolerance, then "near LB"
    exactly when the lower bound exists and |body - lower| <= tolerance;
    both can be logged for one constraint. *)
Theorem near_bound_constraint_rule :
  (forall (num : Type) (N : Numeric num) (tol : num)
          (m : Block num) (lg : list LogRecord),
      Forall analysable (filter active (all_constraints true m)) ->
      log_close_to_bounds tol {| w_model := m; w_log := lg |} =
      (Ok tt,
       {| w_model := m;
          w_log := lg
            ++ flat_map (variable_near_report tol)
                 (component_data_objects_Var true m)
            ++ flat_map (constraint_near_report tol)
                 (filter (fun c => negb (equality c))
                    (filter active (all_constraints true m))) |}))
  /\ (forall (num : Type) (N : Numeric num) (tol : num)
             (c : ConstraintData num) (b : num),
         equality c = false ->
         expr_value (body c) = Some b ->
         constraint_near_report tol c =
           ((if constr_near_ub tol c b
             then [Info (constr_name c ++ " near UB")] else [])
            ++ (if constr_near_lb tol c b
                then [Info (constr_name c ++ " near LB")] else []))%list)
  /\ log_close_to_bounds (int 1)
       {| w_model := mkBlock [] [scenario_range] []; w_log := [] |} =
     (Ok tt,
      {| w_model := mkBlock [] [scenario_range] [];
         w_log := [Info "c near UB"; Info "c near LB"] |}).
Proof.
  split; [|split].
  - intros num N tol m lg Hwf.
    rewrite log_close_to_bounds_reported by assumption.
    rewrite <- (flat_map_filter_silent (fun c => negb (equality c))).
    + reflexivity.
    + intros c Hc. unfold constraint_near_report.
      now destruct (equality c).
  - intros num N tol c b He Hb. unfold constraint_near_report.
    now rewrite He, Hb.
  - reflexivity.
Qed.

Lemma near_bound_constraint_rule_witness :
  log_close_to_bounds tol6
    {| w_model := scenario_nested_model; w_log := [] |} =
  (Ok tt,
   {| w_model := scenario_nested_model;
      w_log := [Debug "Skipping VAR {} with no assigned value.";
                Info "x near UB of 10";
                Info "Skipping CONSTR r: missing variable value."] |}).
Proof.
  refine (proj1 near_bound_constraint_rule decimal Numeric_decimal tol6
            scenario_nested_model [] _).
  simpl. repeat constructor; unfold analysable, evaluable; simpl; intros;
    try discriminate; reflexivity.
Defined.

(** C7. In [log_infeasible_bounds], for a variable with a value: the
    "value < LB bound" line is logged exactly when a lower bound exists and
    lower - value >= tolerance, the "value > UB bound" line exactly when an
    upper bound exists and value - upper >= tolerance; the checks are
    independent and both can fire for one variable.  The function logs
    these lines, variable after variable. *)
Theorem variable_bound_violations :
  (forall (num : Type) (N : Numeric num) (tol : num)
          (m : Block num) (lg : list LogRecord),
      log_infeasible_bounds tol {| w_model := m; w_log := lg |} =
      (Ok tt,
       {| w_model := m;
          w_log := lg ++ flat_map (variable_report tol)
                           (component_data_objects_Var true m) |}))
  /\ (forall (num : Type) (N : Numeric num) (tol : num)
             (v : VarData num) (x : num),
         var_value v = Some x ->
         variable_report tol v =
           (match var_lb v with
            | Some l =>
                if geq (sub l x) tol
                then [Info ("VAR " ++ var_name v ++ ": " ++ str x
                            ++ " < LB " ++ str l)]
                else []
            | None => []
            end
            ++
            match var_ub v with
            | Some u =>
                if geq (sub x u) tol
                then [Info ("VAR " ++ var_name v ++ ": " ++ str x
                            ++ " > UB " ++ str u)]
                else []
            | None => []
            end)%list)
  /\ log_infeasible_bounds tol6
       {| w_model := mkBlock [scenario_var_crossing] [] []; w_log := [] |} =
     (Ok tt,
      {| w_model := mkBlock [scenario_var_crossing] [] [];
         w_log := [Info "VAR v: 5 < LB 10"; Info "VAR v: 5 > UB 0"] |}).
Proof.
  split; [|split].
  - intros num N tol m lg. apply log_infeasible_bounds_reported.
  - intros num N tol v x Hv. unfold variable_report. now rewrite Hv.
  - reflexivity.
Qed.

Lemma variable_bound_violations_witness :
  variable_report tol6 scenario_var_crossing =
    [Info "VAR v: 5 < LB 10"; Info "VAR v: 5 > UB 0"]
  /\ variable_report tol6 scenario_near_ub = [].
Proof.
  split.
  - exact (proj1 (proj2 variable_bound_violations) decimal Numeric_decimal
             tol6 scenario_var_crossing (int 5) eq_refl).
  - exact (proj1 (proj2 variable_bound_violations) decimal Numeric_decimal
             tol6 scenario_near_ub (dec 100000001 7) eq_refl).
Defined.

(** C8, as the code has it.  Every report function takes the model first
    and a logger that defaults to the module-level [logger]; the three
    functions that compare against a tolerance take [tol] with default
    1E-6, and [log_active_constraints], which compares nothing, takes the
    model and the logger only. *)
Theorem report_signatures :
  (forall f : ReportFunction, takes_model f /\ takes_logger f)
  /\ takes_tolerance LogInfeasibleConstraints
  /\ takes_tolerance LogInfeasibleBounds
  /\ takes_tolerance LogCloseToBounds
  /\ signature LogActiveConstraints =
     [positional "m"; keyword "logger" (ModuleName "logger")].
Proof.
  unfold takes_model, takes_logger, takes_tolerance.
  repeat split; try destruct f; simpl; auto.
Qed.

(** C8, as it is worded, fails: [log_active_constraints] has no tolerance
    parameter. *)
Lemma log_active_constraints_without_tolerance :
  ~ (takes_model LogActiveConstraints
     /\ takes_tolerance LogActiveConstraints
     /\ takes_logger LogActiveConstraints).
Proof.
  unfold takes_tolerance. simpl.
  intros [_ [[H | [H | []]] _]]; discriminate H.
Qed.

(** C9. No report writes to the model: after a call of any of the four,
    with any arguments and whether it returns or raises, the model (every
    variable with its value, bounds and fixed flag, every constraint with
    its body, bounds and flags) is the one before the call, and the log is
    the former log followed by the records of the call. *)
Theorem reports_leave_model_unchanged :
  forall (num : Type) (N : Numeric num) (f : ReportFunction)
         (tol : num) (log_expression log_variables : bool) (w : World num),
    w_model (snd (run_report f tol log_expression log_variables w)) = w_model w
    /\ exists lines,
         w_log (snd (run_report f tol log_expression log_variables w)) =
         (w_log w ++ lines)%list.
Proof.
  intros num N f tol le lv w.
  assert (H : frame (run_report f tol le lv)).
  { destruct f; simpl.
    - apply frame_log_infeasible_constraints.
    - apply frame_log_infeasible_bounds.
    - apply frame_log_close_to_bounds.
    - apply frame_log_active_constraints. }
  split; [now apply frame_model | now apply frame_log].
Qed.

(** C10. The skip record of a variable without a value is the same literal
    in [log_infeasible_bounds] and in [log_close_to_bounds]: the text
    "Skipping VAR {} with no assigned value." with its placeholder left
    unfilled, whatever the name of the variable. *)
Theorem skip_message_is_literal :
  forall (num : Type) (N : Numeric num) (tol : num) (v : VarData num),
    var_value v = None ->
    emits (log_infeasible_bounds_body tol v)
          [Debug "Skipping VAR {} with no assigned value."]
    /\ (var_fixed v = false ->
        emits (log_close_to_bounds_var_body tol v)
              [Debug "Skipping VAR {} with no assigned value."]).
Proof.
  intros num N tol v Hv. split.
  - exact (infeasible_bounds_unset tol v Hv).
  - intros Hf. exact (close_var_unset tol v Hf Hv).
Qed.

Lemma skip_message_is_literal_witness :
  emits (log_infeasible_bounds_body tol6 scenario_free_unset)
        [Debug "Skipping VAR {} with no assigned value."]
  /\ emits (log_close_to_bounds_var_body tol6 scenario_free_unset)
           [Debug "Skipping VAR {} with no assigned value."].
Proof.
  pose proof (skip_message_is_literal Numeric_decimal tol6
                scenario_free_unset eq_refl) as [H1 H2].
  split; [exact H1 | exact (H2 eq_refl)].
Defined.

(** ** The scenarios on binary64 floats *)

(** Body 5.0 against target 5.1 with tolerance 1e-6: the "=/=" line. *)
Lemma float_equality_scenario (repr : PrimFloat.float -> string) :
  emits (log_infeasible_constraints_body (N := Binary64.Numeric_float repr)
           Binary64.tol false false Binary64.equality_5_0_5_1)
        [Info ("CONSTR name: " ++ repr Binary64.f5_0 ++ " =/= "
               ++ repr Binary64.f5_1)].
Proof.
  assert (H :
    equality_line (N := Binary64.Numeric_float repr) false false
      Binary64.equality_5_0_5_1 Binary64.f5_0 Binary64.f5_1 =
    Info ("CONSTR name: " ++ repr Binary64.f5_0 ++ " =/= "
          ++ repr Binary64.f5_1)).
  { unfold equality_line, log_template. simpl. now rewrite append_empty. }
  rewrite <- H.
  now apply infeasible_constraints_equality_fires.
Qed.

(** A variable in [0, 10] with value 10.0000001 and tolerance 1e-6 is
    reported near its upper bound and not as violating it. *)
Lemma float_near_ub_scenario (repr : PrimFloat.float -> string) :
  emits (log_close_to_bounds_var_body (N := Binary64.Numeric_float repr)
           Binary64.tol Binary64.x_near_ub)
        [Info ("x near UB of " ++ repr Binary64.f10)]
  /\ emits (log_infeasible_bounds_body (N := Binary64.Numeric_float repr)
              Binary64.tol Binary64.x_near_ub) [].
Proof.
  split.
  - exact (close_var_assigned (N := Binary64.Numeric_float repr)
             Binary64.tol Binary64.x_near_ub eq_refl eq_refl).
  - exact (infeasible_bounds_assigned (N := Binary64.Numeric_float repr)
             Binary64.tol Binary64.x_near_ub eq_refl).
Qed.

(** ** Whole-model properties of the reports *)

Lemma append_assoc (a b c : string) : (a ++ b) ++ c = a ++ (b ++ c).
Proof. induction a as [|x a IH]; simpl; [reflexivity | now rewrite IH]. Qed.

(** X2. [log_infeasible_constraints] looks at the active constraints only:
    as long as the body of every active constraint can be evaluated and the
    active equality constraints have their target, it returns normally and
    adds, for each active constraint in traversal order, what
    [constraint_report] gives.  An inactive constraint is never evaluated,
    so no defect of it can make the report fail. *)
Theorem infeasible_constraints_report :
  forall (num : Type) (N : Numeric num) (tol : num)
         (log_expression log_variables : bool)
         (m : Block num) (lg : list LogRecord),
    Forall reportable (filter active (all_constraints true m)) ->
    log_infeasible_constraints tol log_expression log_variables
      {| w_model := m; w_log := lg |} =
    (Ok tt,
     {| w_model := m;
        w_log := lg ++ flat_map
                   (constraint_report tol log_expression log_variables)
                   (filter active (all_constraints true m)) |}).
Proof.
  intros num N tol le lv m lg Hwf.
  now apply log_infeasible_constraints_reported.
Qed.

(** X3. [log_infeasible_bounds] leaves the log as it was exactly when
    every variable of the model has a value that is within its bounds, to
    the tolerance. *)
Theorem infeasible_bounds_silent_iff :
  forall (num : Type) (N : Numeric num) (tol : num)
         (m : Block num) (lg : list LogRecord),
    log_infeasible_bounds tol {| w_model := m; w_log := lg |} =
      (Ok tt, {| w_model := m; w_log := lg |})
    <-> forallb (var_within_bounds tol) (component_data_objects_Var true m)
        = true.
Proof.
  intros num N tol m lg. rewrite log_infeasible_bounds_run.
  set (vars := component_data_objects_Var true m).
  assert (Hone : forall v,
             lines_of (log_infeasible_bounds_body tol v) = [] <->
             var_within_bounds tol v = true).
  { intros v. unfold var_within_bounds.
    destruct (var_value v) as [x|] eqn:Hv.
    - rewrite (emits_lines_of (infeasible_bounds_assigned tol v Hv)).
      unfold below_lb, above_ub.
      destruct (var_lb v) as [l|], (var_ub v) as [u|]; simpl;
        repeat match goal with
               | |- context [geq ?a ?t] => destruct (geq a t)
               end; simpl; split; intros H; try reflexivity; discriminate.
    - rewrite (emits_lines_of (infeasible_bounds_unset tol v Hv)).
      split; discriminate. }
  assert (Hall : flat_map (fun v => lines_of (log_infeasible_bounds_body tol v)) vars = []
                 <-> forallb (var_within_bounds tol) vars = true).
  { induction vars as [|v rest IH]; simpl.
    - split; reflexivity.
    - rewrite andb_true_iff, <- IH, <- Hone. split.
      + intros H. now apply app_eq_nil in H.
      + intros [H1 H2]. now rewrite H1, H2. }
  rewrite <- Hall. split.
  - intros H. injection H as H.
    rewrite <- (app_nil_r lg) in H at 2. now apply app_inv_head in H.
  - intros H. now rewrite H, app_nil_r.
Qed.

Lemma log_template_detail (le lv : bool)
    (name lhs op rhs lhs_expr rhs_expr printout : string) :
  log_template le lv name lhs op rhs lhs_expr rhs_expr printout =
  log_template false false name lhs op rhs lhs_expr rhs_expr printout
  ++ (if le then nl ++ "  " ++ lhs_expr ++ " " ++ op ++ " " ++ rhs_expr else "")
  ++ (if lv then nl ++ printout else "").
Proof.
  unfold log_template. rewrite !append_assoc. reflexivity.
Qed.

Lemma extends_template (le lv : bool)
    (name lhs op rhs lhs_expr rhs_expr printout : string) :
  extends
    (Info (log_template le lv name lhs op rhs lhs_expr rhs_expr printout))
    (Info (log_template false false name lhs op rhs lhs_expr rhs_expr printout)).
Proof.
  eexists. split; [|reflexivity]. simpl message.
  now rewrite (log_template_detail le lv).
Qed.

Lemma constraint_report_extends {num} {N : Numeric num}
    (tol : num) (le lv : bool) (c : ConstraintData num) :
  Forall2 extends (constraint_report tol le lv c)
                  (constraint_report tol false false c).
Proof.
  unfold constraint_report.
  assert (Hb : forall b,
             Forall2 extends
               (lower_violation tol le lv c b ++ upper_violation tol le lv c b)
               (lower_violation tol false false c b
                ++ upper_violation tol false false c b)).
  { intros b. apply Forall2_app.
    - unfold lower_violation. destruct (lower c) as [l|]; [|constructor].
      destruct (geq (sub l b) tol); repeat constructor.
      apply extends_template.
    - unfold upper_violation. destruct (upper c) as [u|]; [|constructor].
      destruct (geq (sub b u) tol); repeat constructor.
      apply extends_template. }
  destruct (expr_value (body c)) as [b|].
  - destruct (if equality c then lower c else None) as [l|]; [|apply Hb].
    destruct (geq (fabs (sub l b)) tol); [|apply Hb].
    repeat constructor. apply extends_template.
  - repeat constructor. unfold missing_value_line.
    exists (if lv then nl ++ var_printout (body c) else "").
    split; [|reflexivity]. cbv beta iota delta [message].
    now rewrite !append_assoc.
Qed.

Lemma Forall2_flat_map {A B C} (R : B -> C -> Prop)
    (f : A -> list B) (g : A -> list C) (xs : list A) :
  (forall x, Forall2 R (f x) (g x)) ->
  Forall2 R (flat_map f xs) (flat_map g xs).
Proof.
  intros H. induction xs as [|x rest IH]; simpl.
  - constructor.
  - apply Forall2_app; [apply H | exact IH].
Qed.

Lemma constraint_turn_extends {num} {N : Numeric num}
    (tol : num) (le lv : bool) (c : ConstraintData num) :
  has_target c ->
  exists r l l0,
    yields (log_infeasible_constraints_body tol le lv c) r l
    /\ yields (log_infeasible_constraints_body tol false false c) r l0
    /\ Forall2 extends l l0.
Proof.
  intros Hwf.
  assert (Hgood : reportable c ->
            exists r l l0,
              yields (log_infeasible_constraints_body tol le lv c) r l
              /\ yields (log_infeasible_constraints_body tol false false c) r l0
              /\ Forall2 extends l l0).
  { intros Hrep.
    exists (Ok tt), (constraint_report tol le lv c),
      (constraint_report tol false false c).
    split; [|split].
    - now apply constraint_report_body.
    - now apply constraint_report_body.
    - apply constraint_report_extends. }
  destruct (expr_value (body c)) as [b|] eqn:Hb.
  - apply Hgood. split; [|exact Hwf]. intros H. rewrite Hb in H.
    discriminate.
  - destruct (expr_error (body c)) as [err|] eqn:He.
    + exists (Raise err), [], []. split; [|split].
      * now apply infeasible_constraints_fails.
      * now apply infeasible_constraints_fails.
      * constructor.
    + apply Hgood. split; [|exact Hwf]. intros _. exact He.
Qed.

Lemma constraint_loop_extends {num} {N : Numeric num}
    (tol : num) (le lv : bool) (cs : list (ConstraintData num)) :
  Forall has_target cs ->
  exists r l l0,
    yields (for_each cs (log_infeasible_constraints_body tol le lv)) r l
    /\ yields (for_each cs (log_infeasible_constraints_body tol false false))
         r l0
    /\ Forall2 extends l l0.
Proof.
  induction cs as [|c cs IH]; intros Hwf.
  - exists (Ok tt), [], []. repeat split; try apply yields_ret. constructor.
  - inversion Hwf as [|? ? Hc Hrest]; subst.
    destruct (constraint_turn_extends tol le lv Hc)
      as (r & l & l0 & H1 & H2 & HF).
    destruct r as [[]|err].
    + destruct (IH Hrest) as (r' & l' & l0' & H1' & H2' & HF').
      exists r', (l ++ l')%list, (l0 ++ l0')%list. split; [|split].
      * simpl. now apply yields_seq_ok.
      * simpl. now apply yields_seq_ok.
      * now apply Forall2_app.
    + exists (Raise err), l, l0. split; [|split].
      * simpl. now apply yields_seq_raise.
      * simpl. now apply yields_seq_raise.
      * exact HF.
Qed.

(** X4. The flags [log_expression] and [log_variables] never change which
    records [log_infeasible_constraints] adds for a model: record by
    record, the text with the flags is the text without them followed by
    the detail asked for. *)
Theorem verbosity_only_adds_text :
  forall (num : Type) (N : Numeric num) (tol : num)
         (log_expression log_variables : bool) (m : Block num),
    Forall has_target (filter active (all_constraints true m)) ->
    Forall2 extends
      (new_records
         (log_infeasible_constraints tol log_expression log_variables) m)
      (new_records (log_infeasible_constraints tol false false) m).
Proof.
  intros num N tol le lv m Hwf.
  destruct (constraint_loop_extends tol le lv Hwf)
    as (r & l & l0 & H1 & H2 & HF).
  unfold new_records, log_infeasible_constraints, bind, get_model.
  cbn [w_model]. unfold component_data_objects_Constraint.
  rewrite H1, H2. exact HF.
Qed.

Lemma handled_app (lg : Logger) (a b : list LogRecord) :
  handled lg (a ++ b) = (handled lg a ++ handled lg b)%list.
Proof. apply filter_app. Qed.

Lemma handled_flat_map {A} (lg : Logger) (f g : A -> list LogRecord)
    (xs : list A) :
  (forall x, handled lg (f x) = g x) ->
  handled lg (flat_map f xs) = flat_map g xs.
Proof.
  intros H. induction xs as [|x rest IH]; simpl; [reflexivity|].
  now rewrite handled_app, H, IH.
Qed.

(** X5. Through the module-level logger, whose level is INFO,
    [log_infeasible_bounds] outputs the violation lines of the variables
    that have a value and nothing else: a variable without a value leaves
    no trace, its skip record being of level DEBUG. *)
Theorem default_logger_hides_unset_variables :
  forall (num : Type) (N : Numeric num) (tol : num) (m : Block num),
    handled logger (new_records (log_infeasible_bounds tol) m) =
    flat_map (bound_violations tol) (component_data_objects_Var true m).
Proof.
  intros num N tol m. unfold new_records.
  rewrite log_infeasible_bounds_run. simpl.
  apply handled_flat_map. intros v. unfold bound_violations.
  destruct (var_value v) as [x|] eqn:Hv.
  - rewrite (emits_lines_of (infeasible_bounds_assigned tol v Hv)).
    unfold below_lb, above_ub.
    destruct (var_lb v) as [l|], (var_ub v) as [u|]; simpl;
      repeat match goal with
             | |- context [geq ?a ?t] => destruct (geq a t)
             end; reflexivity.
  - now rewrite (emits_lines_of (infeasible_bounds_unset tol v Hv)).
Qed.

Lemma bounds_lines_weaken {num} {N : Numeric num} (L : ThresholdLaw N)
    (tol tol' : num) (v : VarData num) :
  leq tol tol' = true ->
  incl (lines_of (log_infeasible_bounds_body tol' v))
       (lines_of (log_infeasible_bounds_body tol v)).
Proof.
  intros Hle.
  destruct (var_value v) as [x|] eqn:Hv.
  - rewrite !(emits_lines_of (infeasible_bounds_assigned _ v Hv)).
    apply incl_app.
    + apply incl_appl. unfold below_lb.
      destruct (var_lb v) as [l|]; [|apply incl_refl].
      destruct (geq (sub l x) tol') eqn:E; [|apply incl_nil_l].
      rewrite (geq_weaken _ _ _ Hle E). apply incl_refl.
    + apply incl_appr. unfold above_ub.
      destruct (var_ub v) as [u|]; [|apply incl_refl].
      destruct (geq (sub x u) tol') eqn:E; [|apply incl_nil_l].
      rewrite (geq_weaken _ _ _ Hle E). apply incl_refl.
  - rewrite !(emits_lines_of (infeasible_bounds_unset _ v Hv)).
    apply incl_refl.
Qed.

Lemma incl_flat_map {A B} (f g : A -> list B) (xs : list A) :
  (forall x, incl (f x) (g x)) -> incl (flat_map f xs) (flat_map g xs).
Proof.
  intros H. induction xs as [|x rest IH]; simpl.
  - apply incl_refl.
  - apply incl_app; [apply incl_appl, H | apply incl_appr, IH].
Qed.

(** X6. A larger tolerance never adds to the report of
    [log_infeasible_bounds]: every record logged for a model with
    tolerance [tol'] is logged with any tolerance [tol <= tol']. *)
Theorem larger_tolerance_reports_less :
  forall (num : Type) (N : Numeric num) (L : ThresholdLaw N)
         (tol tol' : num) (m : Block num),
    leq tol tol' = true ->
    incl (new_records (log_infeasible_bounds tol') m)
         (new_records (log_infeasible_bounds tol) m).
Proof.
  intros num N L tol tol' m Hle. unfold new_records.
  rewrite !log_infeasible_bounds_run. simpl.
  apply incl_flat_map. intros v. now apply bounds_lines_weaken.
Qed.

(** ** The order of the two numeric domains *)

Lemma decimal_threshold : ThresholdLaw Numeric_decimal.
Proof.
  split. simpl. unfold dec_geq, dec_leq. intros d t t'.
  rewrite !Z.leb_le. intros H1 H2.
  assert (Hd : (0 < 10 ^ Z.of_nat (places d))%Z) by (apply Z.pow_pos_nonneg; lia).
  assert (Ht : (0 < 10 ^ Z.of_nat (places t))%Z) by (apply Z.pow_pos_nonneg; lia).
  assert (Ht' : (0 < 10 ^ Z.of_nat (places t'))%Z) by (apply Z.pow_pos_nonneg; lia).
  apply (Z.mul_le_mono_pos_r _ _ (10 ^ Z.of_nat (places t'))); [exact Ht'|].
  apply (Z.le_trans _ (digits t' * 10 ^ Z.of_nat (places t)
                       * 10 ^ Z.of_nat (places d))).
  - apply (Z.mul_le_mono_nonneg_r _ _ (10 ^ Z.of_nat (places d))) in H1; lia.
  - apply (Z.mul_le_mono_nonneg_r _ _ (10 ^ Z.of_nat (places t))) in H2; lia.
Qed.

Lemma SFleb_trans (x y z : SpecFloat.spec_float) :
  SpecFloat.SFleb x y = true -> SpecFloat.SFleb y z = true ->
  SpecFloat.SFleb x z = true.
Proof.
  unfold SpecFloat.SFleb.
  destruct x as [[]|[]| |[] mx ex], y as [[]|[]| |[] my ey],
    z as [[]|[]| |[] mz ez]; simpl; trivial; try discriminate.
  all: change (PosDef.Pos.compare_cont Eq) with Pos.compare.
  all: destruct (Z.compare_spec ex ey), (Z.compare_spec ey ez),
         (Z.compare_spec ex ez); subst; simpl; trivial; try discriminate;
         try lia.
  all: destruct (Pos.compare_spec mx my), (Pos.compare_spec my mz),
         (Pos.compare_spec mx mz); subst; simpl; trivial; try discriminate;
         try lia.
Qed.

Lemma float_threshold (repr : PrimFloat.float -> string) :
  ThresholdLaw (Binary64.Numeric_float repr).
Proof.
  split. simpl. intros d t t'.
  rewrite !FloatAxioms.leb_spec. apply SFleb_trans.
Qed.

(** ** Not-a-number *)

Lemma is_nan_spec (b : PrimFloat.float) :
  PrimFloat.is_nan b = true <-> FloatOps.Prim2SF b = SpecFloat.S754_nan.
Proof.
  unfold PrimFloat.is_nan. rewrite FloatAxioms.eqb_spec.
  unfold SpecFloat.SFeqb.
  destruct (FloatOps.Prim2SF b) as [s|s| |s m e]; simpl.
  - split; discriminate.
  - destruct s; split; discriminate.
  - split; reflexivity.
  - change (PosDef.Pos.compare_cont Eq) with Pos.compare.
    rewrite Z.compare_refl, Pos.compare_refl.
    destruct s; split; discriminate.
Qed.

Lemma nan_sub_r (x b : PrimFloat.float) :
  PrimFloat.is_nan b = true -> PrimFloat.is_nan (PrimFloat.sub x b) = true.
Proof.
  rewrite !is_nan_spec, FloatAxioms.sub_spec. intros ->.
  now destruct (FloatOps.Prim2SF x).
Qed.

Lemma nan_sub_l (b x : PrimFloat.float) :
  PrimFloat.is_nan b = true -> PrimFloat.is_nan (PrimFloat.sub b x) = true.
Proof.
  rewrite !is_nan_spec, FloatAxioms.sub_spec. now intros ->.
Qed.

Lemma nan_abs (b : PrimFloat.float) :
  PrimFloat.is_nan b = true -> PrimFloat.is_nan (PrimFloat.abs b) = true.
Proof.
  rewrite !is_nan_spec, FloatAxioms.abs_spec. now intros ->.
Qed.

Lemma leb_nan_r (t b : PrimFloat.float) :
  PrimFloat.is_nan b = true -> PrimFloat.leb t b = false.
Proof.
  rewrite is_nan_spec, FloatAxioms.leb_spec. intros ->.
  unfold SpecFloat.SFleb. now destruct (FloatOps.Prim2SF t).
Qed.

Lemma leb_nan_l (b t : PrimFloat.float) :
  PrimFloat.is_nan b = true -> PrimFloat.leb b t = false.
Proof.
  rewrite is_nan_spec, FloatAxioms.leb_spec. now intros ->.
Qed.

(** X7. On binary64 floats a value that is not a number is never
    reported: a constraint whose body evaluates to NaN gets no line from
    [log_infeasible_constraints] nor from [log_close_to_bounds], and a
    variable whose value is NaN gets none from [log_infeasible_bounds] nor
    from [log_close_to_bounds], whatever the bounds and the tolerance. *)
Theorem nan_is_never_reported :
  forall (repr : PrimFloat.float -> string) (tol : PrimFloat.float),
    (forall (log_expression log_variables : bool)
            (c : ConstraintData PrimFloat.float) (b : PrimFloat.float),
        expr_value (body c) = Some b ->
        PrimFloat.is_nan b = true ->
        has_target c ->
        emits (log_infeasible_constraints_body
                 (N := Binary64.Numeric_float repr)
                 tol log_expression log_variables c) []
        /\ emits (log_close_to_bounds_constr_body
                    (N := Binary64.Numeric_float repr) tol c) [])
    /\ (forall (v : VarData PrimFloat.float) (x : PrimFloat.float),
           var_value v = Some x ->
           PrimFloat.is_nan x = true ->
           emits (log_infeasible_bounds_body
                    (N := Binary64.Numeric_float repr) tol v) []
           /\ emits (log_close_to_bounds_var_body
                       (N := Binary64.Numeric_float repr) tol v) []).
Proof.
  intros repr tol. split.
  - intros le lv c b Hb Hnan Hwf.
    assert (Hlow : lower_violation (N := Binary64.Numeric_float repr)
                     tol le lv c b = []).
    { unfold lower_violation. destruct (lower c) as [l|]; [|reflexivity].
      simpl. now rewrite (@leb_nan_r tol _ (@nan_sub_r l b Hnan)). }
    assert (Hup : upper_violation (N := Binary64.Numeric_float repr)
                    tol le lv c b = []).
    { unfold upper_violation. destruct (upper c) as [u|]; [|reflexivity].
      simpl. now rewrite (@leb_nan_r tol _ (@nan_sub_l b u Hnan)). }
    split.
    + assert (Hrep : reportable c).
      { split; [|exact Hwf]. intros Hnone. rewrite Hb in Hnone.
        discriminate. }
      pose proof (@constraint_report_body _ (Binary64.Numeric_float repr)
                    tol le lv c Hrep) as H.
      unfold constraint_report in H. rewrite Hb, Hlow, Hup in H.
      destruct (if equality c then lower c else None) as [l|]; [|exact H].
      simpl in H.
      now rewrite (@leb_nan_r tol _ (@nan_abs _ (@nan_sub_r l b Hnan))) in H.
    + destruct (equality c) eqn:He.
      * now apply close_constr_equality.
      * pose proof (close_constr_assigned (N := Binary64.Numeric_float repr)
                      tol c He Hb) as H.
        unfold constr_near_ub, constr_near_lb in H.
        destruct (upper c) as [u|], (lower c) as [l|]; simpl in H;
          rewrite ?(@leb_nan_l (PrimFloat.abs (PrimFloat.sub b u)) tol
                      (@nan_abs _ (@nan_sub_l b u Hnan))),
                  ?(@leb_nan_l (PrimFloat.abs (PrimFloat.sub b l)) tol
                      (@nan_abs _ (@nan_sub_l b l Hnan))) in H;
          exact H.
  - intros v x Hv Hnan. split.
    + pose proof (infeasible_bounds_assigned (N := Binary64.Numeric_float repr)
                    tol v Hv) as H.
      unfold below_lb, above_ub in H.
      destruct (var_lb v) as [l|], (var_ub v) as [u|]; simpl in H;
        rewrite ?(@leb_nan_r tol _ (@nan_sub_r l x Hnan)),
                ?(@leb_nan_r tol _ (@nan_sub_l x u Hnan)) in H;
        exact H.
    + destruct (var_fixed v) eqn:Hf.
      * now apply close_var_fixed.
      * pose proof (close_var_assigned (N := Binary64.Numeric_float repr)
                      tol v Hf Hv) as H.
        unfold var_near_lb, var_near_ub in H.
        destruct (bounds_too_close tol v); [exact H|].
        destruct (var_lb v) as [l|], (var_ub v) as [u|]; simpl in H;
          rewrite ?(@leb_nan_l (PrimFloat.abs (PrimFloat.sub l x)) tol
                      (@nan_abs _ (@nan_sub_r l x Hnan))),
                  ?(@leb_nan_l (PrimFloat.abs (PrimFloat.sub u x)) tol
                      (@nan_abs _ (@nan_sub_r u x Hnan))) in H;
          exact H.
Qed.

Lemma flat_map_length_le {A B} (f : A -> list B) (k : nat) (xs : list A) :
  (forall x, (List.length (f x) <= k)%nat) ->
  (List.length (flat_map f xs) <= k * List.length xs)%nat.
Proof.
  intros H. induction xs as [|x rest IH]; simpl; [lia|].
  rewrite length_app. specialize (H x). lia.
Qed.


Lemma close_constr_turn_bounded {num} {N : Numeric num}
    (tol : num) (c : ConstraintData num) :
  exists r l,
    yields (log_close_to_bounds_constr_body tol c) r l
    /\ (List.length l <= 2)%nat.
Proof.
  assert (Hgood : analysable c ->
            exists r l,
              yields (log_close_to_bounds_constr_body tol c) r l
              /\ (List.length l <= 2)%nat).
  { intros Ha. exists (Ok tt), (constraint_near_report tol c). split.
    - now apply constraint_near_report_body.
    - unfold constraint_near_report.
      destruct (equality c); [simpl; lia|].
      destruct (expr_value (body c)) as [b|]; [|simpl; lia].
      destruct (constr_near_ub tol c b), (constr_near_lb tol c b);
        simpl; lia. }
  destruct (equality c) eqn:Heq.
  - apply Hgood. unfold analysable. intros H. congruence.
  - destruct (expr_value (body c)) as [b|] eqn:Hb.
    + apply Hgood. unfold analysable, evaluable. intros _ H. congruence.
    + destruct (expr_error (body c)) as [err|] eqn:He.
      * exists (Raise err), []. split; [|simpl; lia].
        now apply close_constr_fails.
      * apply Hgood. unfold analysable, evaluable. intros _ _. exact He.
Qed.

Lemma close_constr_loop_bounded {num} {N : Numeric num}
    (tol : num) (cs : list (ConstraintData num)) :
  exists r l,
    yields (for_each cs (log_close_to_bounds_constr_body tol)) r l
    /\ (List.length l <= 2 * List.length cs)%nat.
Proof.
  induction cs as [|c cs IH].
  - exists (Ok tt), []. split; [apply yields_ret | simpl; lia].
  - destruct (close_constr_turn_bounded tol c) as (r & l & H & Hlen).
    destruct r as [[]|err].
    + destruct IH as (r' & l' & H' & Hlen').
      exists r', (l ++ l')%list. split.
      * simpl. now apply yields_seq_ok.
      * rewrite length_app. simpl. lia.
    + exists (Raise err), l. split.
      * simpl. now apply yields_seq_raise.
      * simpl. lia.
Qed.

(** X8. Whether [log_close_to_bounds] returns or an evaluation makes it
    raise, it adds at most one record for each variable and two for each
    active constraint of the model. *)
Theorem close_to_bounds_adds_bounded_records :
  forall (num : Type) (N : Numeric num) (tol : num)
         (m : Block num) (lg : list LogRecord),
    exists (r : outcome unit) (lines : list LogRecord),
      log_close_to_bounds tol {| w_model := m; w_log := lg |} =
        (r, {| w_model := m; w_log := lg ++ lines |})
      /\ (List.length lines <=
          List.length (component_data_objects_Var true m)
          + 2 * List.length (filter active (all_constraints true m)))%nat.
Proof.
  intros num N tol m lg. rewrite close_to_bounds_variables_done.
  unfold component_data_objects_Constraint.
  destruct (close_constr_loop_bounded tol
              (filter active (all_constraints true m)))
    as (r & l & H & Hlen).
  exists r, (flat_map (variable_near_report tol)
               (component_data_objects_Var true m) ++ l)%list.
  split.
  - rewrite H. unfold log_append. simpl. now rewrite <- app_assoc.
  - rewrite length_app. apply Nat.add_le_mono; [|exact Hlen].
    rewrite <- (Nat.mul_1_l (List.length (component_data_objects_Var true m))).
    apply flat_map_length_le. intros v. unfold variable_near_report.
    destruct (var_fixed v); [simpl; lia|].
    destruct (var_value v) as [x|]; [|simpl; lia].
    destruct (bounds_too_close tol v), (var_near_lb tol v x),
      (var_near_ub tol v x); simpl; lia.
Qed.

(** ** The properties at concrete models *)

Lemma scenario_nested_targets :
  Forall has_target (filter active (all_constraints true scenario_nested_model)).
Proof.
  simpl. repeat constructor; unfold has_target; simpl; intros; discriminate.
Defined.

Lemma infeasible_constraints_report_witness :
  log_infeasible_constraints tol6 false false
    {| w_model := mkBlock [] [scenario_inactive_broken; scenario_crossing] [];
       w_log := [] |} =
  (Ok tt,
   {| w_model := mkBlock [] [scenario_inactive_broken; scenario_crossing] [];
      w_log := [Info "CONSTR name: 10 </= 5"; Info "CONSTR name: 5 </= 0"] |}).
Proof.
  refine (infeasible_constraints_report Numeric_decimal tol6 false false
            (mkBlock [] [scenario_inactive_broken; scenario_crossing] [])
            [] _).
  simpl. repeat constructor; unfold evaluable, has_target; simpl; intros;
    discriminate.
Defined.

Lemma verbosity_only_adds_text_witness :
  Forall2 extends
    (new_records (log_infeasible_constraints tol6 true true)
       scenario_nested_model)
    (new_records (log_infeasible_constraints tol6 false false)
       scenario_nested_model).
Proof.
  exact (verbosity_only_adds_text Numeric_decimal tol6 true true
           scenario_nested_model scenario_nested_targets).
Defined.

Lemma larger_tolerance_reports_less_witness :
  incl (new_records (log_infeasible_bounds (int 20)) scenario_nested_model)
       (new_records (log_infeasible_bounds tol6) scenario_nested_model).
Proof.
  exact (larger_tolerance_reports_less decimal_threshold tol6 (int 20)
           scenario_nested_model eq_refl).
Defined.

Lemma nan_is_never_reported_witness :
  emits (log_infeasible_constraints_body
           (N := Binary64.Numeric_float (fun _ => "nan"))
           Binary64.tol false false scenario_nan_constraint) []
  /\ emits (log_infeasible_bounds_body
              (N := Binary64.Numeric_float (fun _ => "nan"))
              Binary64.tol scenario_nan_variable) [].
Proof.
  pose proof (nan_is_never_reported (fun _ => "nan") Binary64.tol)
    as [Hc Hv].
  split.
  - refine (proj1 (Hc false false scenario_nan_constraint PrimFloat.nan
                     eq_refl eq_refl _)).
    unfold has_target. simpl. intros; discriminate.
  - exact (proj1 (Hv scenario_nan_variable PrimFloat.nan eq_refl eq_refl)).
Defined.


(** * Properties of the listing script *)

Section TupleOrder.

Lemma string_compare_refl (s : string) : String.compare s s = Eq.
Proof. now apply OrderedTypeEx.String_as_OT.cmp_eq. Qed.

Lemma string_compare_lt_trans (a b c : string) :
  String.compare a b = Lt -> String.compare b c = Lt ->
  String.compare a c = Lt.
Proof.
  intros H1 H2.
  apply OrderedTypeEx.String_as_OT.cmp_lt in H1, H2.
  apply OrderedTypeEx.String_as_OT.cmp_lt.
  eapply OrderedTypeEx.String_as_OT.lt_trans; eassumption.
Qed.

Lemma tuple_ltb_irrefl (a : list string) : tuple_ltb a a = false.
Proof.
  induction a as [|x a IH]; simpl; [reflexivity|].
  now rewrite string_compare_refl.
Qed.

Lemma tuple_ltb_trans (a b c : list string) :
  tuple_ltb a b = true -> tuple_ltb b c = true -> tuple_ltb a c = true.
Proof.
  revert b c. induction a as [|x a IH]; intros [|y b] [|z c]; simpl;
    try easy.
  destruct (String.compare x y) eqn:E1, (String.compare y z) eqn:E2;
    try easy.
  - apply String.compare_eq_iff in E1, E2. subst.
    rewrite string_compare_refl. apply IH.
  - apply String.compare_eq_iff in E1. subst. now rewrite E2.
  - apply String.compare_eq_iff in E2. subst. now rewrite E1.
  - now rewrite (string_compare_lt_trans _ _ _ E1 E2).
Qed.

Lemma tuple_ltb_trichotomy (a b : list string) :
  tuple_ltb a b = false -> tuple_ltb b a = false -> a = b.
Proof.
  revert b. induction a as [|x a IH]; intros [|y b]; simpl; try easy.
  rewrite (String.compare_antisym y x).
  destruct (String.compare x y) eqn:E; simpl; try easy.
  apply String.compare_eq_iff in E. subst.
  intros H1 H2. f_equal. now apply IH.
Qed.

Lemma tuple_le_trans (a b c : list string) :
  tuple_ltb b a = false -> tuple_ltb c b = false -> tuple_ltb c a = false.
Proof.
  intros H1 H2.
  destruct (tuple_ltb c a) eqn:H3; [|reflexivity].
  destruct (tuple_ltb a b) eqn:H4.
  - now rewrite (tuple_ltb_trans _ _ _ H3 H4) in H2.
  - rewrite (tuple_ltb_trichotomy _ _ H4 H1) in H3. congruence.
Qed.

End TupleOrder.

Section ListingFacts.

Variable atom : Type.
Variable py_str : atom -> string.

Local Abbreviation key := (key py_str).
Local Abbreviation sorted := (sorted py_str).
Local Abbreviation insert_by_key := (insert_by_key py_str).

Lemma insert_by_key_perm (x : list atom) (l : list (list atom)) :
  Permutation (insert_by_key x l) (x :: l).
Proof.
  induction l as [|y l IH]; simpl.
  - apply Permutation_refl.
  - destruct (tuple_ltb (key y) (key x)).
    + eapply perm_trans; [apply perm_skip, IH | apply perm_swap].
    + apply Permutation_refl.
Qed.

Lemma sorted_perm (l : list (list atom)) : Permutation (sorted l) l.
Proof.
  induction l as [|x l IH]; simpl.
  - apply perm_nil.
  - eapply perm_trans; [apply insert_by_key_perm | now apply perm_skip].
Qed.

Lemma key_le_trans (a b c : list atom) :
  key_le py_str a b -> key_le py_str b c -> key_le py_str a c.
Proof. unfold key_le. intros H1 H2. eapply tuple_le_trans; eassumption. Qed.

Lemma insert_by_key_sorted (x : list atom) (l : list (list atom)) :
  StronglySorted (key_le py_str) l -> StronglySorted (key_le py_str) (insert_by_key x l).
Proof.
  induction l as [|y l IH]; intros Hs; simpl.
  - repeat constructor.
  - inversion Hs as [|? ? Hs' Hall]; subst.
    destruct (tuple_ltb (key y) (key x)) eqn:E.
    + constructor; [now apply IH|].
      apply (Permutation_Forall (Permutation_sym (insert_by_key_perm x l))).
      constructor; [|exact Hall].
      unfold key_le.
      destruct (tuple_ltb (key x) (key y)) eqn:E'; [|reflexivity].
      pose proof (tuple_ltb_trans _ _ _ E E') as H.
      now rewrite tuple_ltb_irrefl in H.
    + constructor; [exact Hs|].
      constructor; [exact E|].
      eapply Forall_impl; [|exact Hall].
      intros z Hz. eapply key_le_trans; [exact E | exact Hz].
Qed.

Lemma sorted_sorted (l : list (list atom)) : StronglySorted (key_le py_str) (sorted l).
Proof.
  induction l as [|x l IH]; simpl.
  - constructor.
  - now apply insert_by_key_sorted.
Qed.

Lemma sorted_lists_equal (l1 l2 : list (list atom)) :
  StronglySorted (key_le py_str) l1 -> StronglySorted (key_le py_str) l2 ->
  Permutation l1 l2 ->
  (forall a b, In a l1 -> In b l1 -> key a = key b -> a = b) ->
  l1 = l2.
Proof.
  revert l2. induction l1 as [|a l1 IH]; intros l2 H1 H2 Hp Hinj.
  - apply Permutation_nil in Hp. now subst.
  - destruct l2 as [|b l2].
    + apply Permutation_sym, Permutation_nil in Hp. discriminate.
    + inversion H1 as [|? ? H1' Ha]; subst.
      inversion H2 as [|? ? H2' Hb]; subst.
      assert (Hab : a = b).
      { assert (Hina : In a (b :: l2))
          by (eapply Permutation_in; [exact Hp | now left]).
        assert (Hinb : In b (a :: l1))
          by (eapply Permutation_in; [apply Permutation_sym, Hp | now left]).
        destruct Hina as [E | Hina]; [now subst|].
        destruct Hinb as [E | Hinb]; [now subst|].
        rewrite Forall_forall in Ha, Hb.
        apply Hinj; [now left | now right |].
        apply tuple_ltb_trichotomy; [apply (Hb a Hina) | apply (Ha b Hinb)]. }
      subst b. f_equal.
      apply IH; auto.
      * eapply Permutation_cons_inv; exact Hp.
      * intros x y Hx Hy. apply Hinj; now right.
Qed.

Lemma NoDup_map_injective {A B} (f : A -> B) (l : list A) :
  NoDup (map f l) ->
  forall a b, In a l -> In b l -> f a = f b -> a = b.
Proof.
  induction l as [|x l IH]; simpl; intros Hnd a b Ha Hb E; [easy|].
  inversion Hnd as [|? ? Hnotin Hnd']; subst.
  destruct Ha as [<- | Ha], Hb as [<- | Hb]; auto.
  - elim Hnotin. rewrite E. now apply in_map.
  - elim Hnotin. rewrite <- E. now apply in_map.
Qed.

Lemma insert_by_key_filter (k : list string) (x : list atom)
    (l : list (list atom)) :
  filter (same_key py_str k) (insert_by_key x l) =
  filter (same_key py_str k) (x :: l).
Proof.
  induction l as [|y l IH]; [reflexivity|].
  simpl insert_by_key.
  destruct (tuple_ltb (key y) (key x)) eqn:E; [|reflexivity].
  simpl in *. rewrite IH.
  unfold same_key.
  destruct (list_eq_dec string_dec (key x) k) as [Ex|]; [|reflexivity].
  destruct (list_eq_dec string_dec (key y) k) as [Ey|]; [|reflexivity].
  rewrite Ex, Ey, tuple_ltb_irrefl in E. discriminate.
Qed.

End ListingFacts.

(** X9. The script prints every member of the set once: the printed tuples
    are a rearrangement of the members. *)
Theorem set5_prints_every_member :
  forall (atom : Type) (py_str : atom -> string) (data : list (list atom)),
    Permutation (set5 py_str data) data.
Proof. intros. apply sorted_perm. Qed.

(** X10. The tuples are printed in the order of their keys: no tuple is
    printed after one whose tuple of texts is greater. *)
Theorem set5_prints_in_key_order :
  forall (atom : Type) (py_str : atom -> string) (data : list (list atom)),
    StronglySorted (fun a b => tuple_ltb (key py_str b) (key py_str a) = false)
      (set5 py_str data).
Proof. intros. apply sorted_sorted. Qed.

(** X11. When no two members have the same tuple of texts, the listing
    does not depend on the order in which the set yields its members. *)
Theorem set5_listing_is_canonical :
  forall (atom : Type) (py_str : atom -> string) (data data' : list (list atom)),
    NoDup (map (key py_str) data) ->
    Permutation data data' ->
    set5 py_str data' = set5 py_str data.
Proof.
  intros atom py_str data data' Hnd Hp. unfold set5. symmetry.
  apply (@sorted_lists_equal _ py_str).
  - apply sorted_sorted.
  - apply sorted_sorted.
  - eapply perm_trans; [apply sorted_perm|].
    eapply perm_trans; [exact Hp | apply Permutation_sym, sorted_perm].
  - intros a b Ha Hb. apply (@NoDup_map_injective _ _ (key py_str) data Hnd).
    + eapply Permutation_in; [apply sorted_perm | exact Ha].
    + eapply Permutation_in; [apply sorted_perm | exact Hb].
Qed.

(** X12. Members with the same tuple of texts (the number 1 and the string
    "1", say) are printed in the order in which the set yields them. *)
Theorem set5_keeps_ties_in_order :
  forall (atom : Type) (py_str : atom -> string) (data : list (list atom))
         (k : list string),
    filter (same_key py_str k) (set5 py_str data) =
    filter (same_key py_str k) data.
Proof.
  intros atom py_str data k. unfold set5, sorted.
  induction data as [|x data IH]; [reflexivity|].
  simpl fold_right. rewrite insert_by_key_filter. simpl. now rewrite IH.
Qed.

Lemma set5_listing_is_canonical_witness :
  set5 Z_str (rev scenario_members) = set5 Z_str scenario_members.
Proof.
  apply set5_listing_is_canonical.
  - simpl. repeat constructor; simpl; intuition discriminate.
  - apply Permutation_rev.
Defined.
